(** * Deprecated-method remover: a shallow embedding of
      [remove_deprecated_methods.py] and the properties of its pipeline

    The script reads one source file, finds the declarations annotated as
    deprecated (the [marker] below), deletes each one from the annotation to the
    line that closes its body, collapses long runs of newlines and writes the
    result back.

    Conventions of the embedding.
    - A Python [str] is a [list ascii]; a character is read as a code point
      below 256, which covers every character the script inspects (the
      newline, the two braces, the marker, white space and word characters).
    - [content.split('\n')] is [split_lines] and ['\n'.join(lines)] is
      [join_lines]; a document is the [list str] of its lines, indexed from 0
      as in the script (the printed report adds 1 to both ends).
    - Python integers that can become negative ([brace_count], the removed
      line totals) are [Z]; list indices are [nat].
    - A [while] loop whose index may jump forward is a [Fixpoint] on a fuel
      argument; [scan_loop_fuel] shows that the fuel handed over by
      [find_deprecated_methods] is never exhausted.
    - [print] calls that carry data are kept as a list of [report]s. *)

From Stdlib Require Import Ascii String ZArith Arith Bool Lia List.
From Stdlib Require Import Sorting.Sorted Sorting.Permutation.
Import ListNotations.

(* ================================================================== *)
(** * Part I. The program                                              *)
(* ================================================================== *)

(** ** Strings *)

Abbreviation str := (list ascii) (only parsing).

Definition lit (s : string) : str := list_ascii_of_string s.

Definition nl : ascii := ascii_of_nat 10.
Definition open_brace : ascii := ascii_of_nat 123.
Definition close_brace : ascii := ascii_of_nat 125.

Definition is_nl (c : ascii) : bool := Ascii.eqb c nl.

(** [content.split('\n')]: always at least one line. *)
Fixpoint split_lines (content : str) : list str :=
  match content with
  | [] => [[]]
  | c :: rest =>
      if is_nl c then [] :: split_lines rest
      else match split_lines rest with
           | line :: more => (c :: line) :: more
           | [] => [[c]]
           end
  end.

(** ['\n'.join(lines)]. *)
Fixpoint join_lines (lines : list str) : str :=
  match lines with
  | [] => []
  | [line] => line
  | line :: more => line ++ nl :: join_lines more
  end.

(** [s.startswith(p)]. *)
Fixpoint startswith (p s : str) : bool :=
  match p, s with
  | [], _ => true
  | _ :: _, [] => false
  | a :: p', b :: s' => Ascii.eqb a b && startswith p' s'
  end.

(** [p in s] for strings. *)
Fixpoint contains (p s : str) : bool :=
  startswith p s ||
  match s with
  | [] => false
  | _ :: s' => contains p s'
  end.

(** [str.isspace] on one character (also the class [\s] of [re]): the ASCII
    white space 9..13, 28..31 and 32, and in the Latin-1 range 133 and 160. *)
Definition isspace (c : ascii) : bool :=
  let n := nat_of_ascii c in
  ((9 <=? n) && (n <=? 13)) || ((28 <=? n) && (n <=? 32))
  || (n =? 133) || (n =? 160).

(** The class [\w] of [re] on a [str] pattern: alphanumeric characters and
    the underscore.  Below 128 these are the digits and the letters; in the
    Latin-1 range the letters 170, 181, 186, 192..214, 216..246, 248..255
    and the numeric characters 178, 179, 185, 188..190. *)
Definition isword (c : ascii) : bool :=
  let n := nat_of_ascii c in
  ((48 <=? n) && (n <=? 57)) || ((65 <=? n) && (n <=? 90))
  || (n =? 95) || ((97 <=? n) && (n <=? 122))
  || (n =? 170) || (n =? 181) || (n =? 186)
  || ((192 <=? n) && (n <=? 214)) || ((216 <=? n) && (n <=? 246))
  || (248 <=? n)
  || (n =? 178) || (n =? 179) || (n =? 185)
  || ((188 <=? n) && (n <=? 190)).

Fixpoint lstrip (s : str) : str :=
  match s with
  | c :: s' => if isspace c then lstrip s' else s
  | [] => []
  end.

Definition rstrip (s : str) : str := rev (lstrip (rev s)).

(** [s.strip()]. *)
Definition strip (s : str) : str := rstrip (lstrip s).

(** The longest prefix of [s] inside the class [p], and what follows it. *)
Fixpoint span (p : ascii -> bool) (s : str) : str * str :=
  match s with
  | c :: s' =>
      if p c then let '(a, b) := span p s' in (c :: a, b) else ([], s)
  | [] => ([], [])
  end.

(** ** The scanner: [find_deprecated_methods] *)

(** The dictionary appended to [deprecated_blocks]; the key ['end'] is
    [end_] and the key ['lines'] is [n_lines]. *)
Record block : Type := mkBlock {
  start : nat;
  end_ : nat;
  name : str;
  n_lines : Z
}.

(** One line of the scanner's output:
    [Found deprecated method: name (lines first-last, count lines)]. *)
Record report : Type := mkReport {
  r_name : str;
  r_first : nat;
  r_last : nat;
  r_count : Z
}.

(** The text the scanner looks for: [@available(] followed by
    [*, deprecated]. *)
Definition marker : str := lit "@available(" ++ lit "*, deprecated".

(** [marker in line] *)
Definition has_marker (line : str) : bool := contains marker line.

(** [lines[j].strip() == '' or lines[j].strip().startswith('//')] *)
Definition blank_or_comment (line : str) : bool :=
  match strip line with
  | [] => true
  | t => startswith (lit "//") t
  end.

(** The loop [while j < len(lines) and (...): j += 1], run on the lines from
    index [j] on; the result is [len(lines)] when every one of them is blank
    or a comment. *)
Fixpoint skip_to_signature (rest : list str) (j : nat) : nat :=
  match rest with
  | [] => j
  | line :: rest' =>
      if blank_or_comment line then skip_to_signature rest' (S j) else j
  end.

(** [func\s+(\w+)] tried at the head of [s].  Both quantifiers are greedy and
    the two classes are disjoint, so giving back white space never produces a
    match that the longest run does not. *)
Definition match_func_here (s : str) : option str :=
  if startswith (lit "func") s then
    match span isspace (skipn 4 s) with
    | ([], _) => None
    | (_ :: _, after) =>
        match fst (span isword after) with
        | [] => None
        | w => Some w
        end
    end
  else None.

(** [re.search(r'func\s+(\w+)', s)] followed by [match.group(1)]. *)
Fixpoint re_search_func (s : str) : option str :=
  match match_func_here s with
  | Some w => Some w
  | None =>
      match s with
      | [] => None
      | _ :: s' => re_search_func s'
      end
  end.

Definition extract_method_name (method_signature : str) : str :=
  if contains (lit "func ") method_signature then
    match re_search_func method_signature with
    | Some w => w
    | None => lit "Unknown"
    end
  else lit "Unknown".

(** The loop [for char in line_text]: the new [brace_count] and
    [found_opening], and whether the loop left through its [break]. *)
Fixpoint count_braces (line_text : str) (brace_count : Z) (found_opening : bool)
  : Z * bool * bool :=
  match line_text with
  | [] => (brace_count, found_opening, false)
  | char :: rest =>
      if Ascii.eqb char open_brace then
        count_braces rest (brace_count + 1)%Z true
      else if Ascii.eqb char close_brace then
        let brace_count := (brace_count - 1)%Z in
        if found_opening && (brace_count =? 0)%Z
        then (brace_count, found_opening, true)
        else count_braces rest brace_count found_opening
      else count_braces rest brace_count found_opening
  end.

(** The loop [for k in range(j, len(lines))], run on the lines from index [k]
    on.  [end_line] is what the script initialised it to, the declaration
    line: it is returned when the document ends, and also when the second
    test [found_opening and brace_count == 0] stops the loop on a line whose
    last brace is an opening one. *)
Fixpoint find_end (rest : list str) (k : nat) (brace_count : Z)
    (found_opening : bool) (end_line : nat) : nat :=
  match rest with
  | [] => end_line
  | line_text :: rest' =>
      match count_braces line_text brace_count found_opening with
      | (_, _, true) => k
      | (brace_count', found_opening', false) =>
          if found_opening' && (brace_count' =? 0)%Z then end_line
          else find_end rest' (S k) brace_count' found_opening' end_line
      end
  end.

(** What the scanner has accumulated: the list it returns and what it
    printed. *)
Record scan_state : Type := mkScan {
  deprecated_blocks : list block;
  printed : list report
}.

Definition scan_start : scan_state := mkScan [] [].

Definition found (st : scan_state) (start_line end_line : nat)
    (method_name : str) : scan_state :=
  let count := (Z.of_nat end_line - Z.of_nat start_line + 1)%Z in
  mkScan
    (deprecated_blocks st ++ [mkBlock start_line end_line method_name count])
    (printed st ++ [mkReport method_name (start_line + 1) (end_line + 1) count]).

(** The loop [while i < len(lines)]. *)
Fixpoint scan_loop (fuel : nat) (lines : list str) (i : nat) (st : scan_state)
  : scan_state :=
  match fuel with
  | 0 => st
  | S fuel' =>
      if i <? length lines then
        let line := nth i lines [] in
        if has_marker line then
          let start_line := i in
          let j := skip_to_signature (skipn (i + 1) lines) (i + 1) in
          if length lines <=? j then scan_loop fuel' lines (i + 1) st
          else
            let method_signature := strip (nth j lines []) in
            let method_name := extract_method_name method_signature in
            let end_line := find_end (skipn j lines) j 0%Z false j in
            scan_loop fuel' lines (end_line + 1)
              (found st start_line end_line method_name)
        else scan_loop fuel' lines (i + 1) st
      else st
  end.

Definition find_deprecated_state (content : str) : scan_state :=
  let lines := split_lines content in
  scan_loop (length lines) lines 0 scan_start.

Definition find_deprecated_methods (content : str) : list block :=
  deprecated_blocks (find_deprecated_state content).

(** ** The executor: [remove_deprecated_blocks] *)

(** [del l[a:b]] for indices that are not negative: Python clamps both to the
    length and deletes nothing when [b <= a]. *)
Definition del_slice {A : Type} (l : list A) (a b : nat) : list A :=
  firstn a l ++ skipn (Nat.max a b) l.

(** [sorted(blocks, key=lambda x: x['start'], reverse=True)]: descending by
    [start], and stable (blocks with the same start keep their order). *)
Fixpoint insert_desc (b : block) (sorted : list block) : list block :=
  match sorted with
  | [] => [b]
  | b' :: rest =>
      if start b' <=? start b then b :: b' :: rest
      else b' :: insert_desc b rest
  end.

Definition sorted_reverse (blocks : list block) : list block :=
  fold_right insert_desc [] blocks.

(** One turn of [for block in deprecated_blocks_sorted] on the pair
    [(lines, total_lines_removed)]. *)
Definition remove_block (st : list str * Z) (b : block) : list str * Z :=
  let '(lines, total_lines_removed) := st in
  let lines_removed := (Z.of_nat (end_ b) - Z.of_nat (start b) + 1)%Z in
  (del_slice lines (start b) (end_ b + 1),
   (total_lines_removed + lines_removed)%Z).

(** The lines left after the loop and the total the function prints. *)
Definition remove_loop (lines : list str) (blocks : list block)
  : list str * Z :=
  fold_left remove_block (sorted_reverse blocks) (lines, 0%Z).

Definition remove_deprecated_blocks (content : str) (blocks : list block)
  : str :=
  join_lines (fst (remove_loop (split_lines content) blocks)).

(** ** The normalizer: [clean_empty_lines] *)

(** The number of newlines [s] starts with. *)
Fixpoint leading_newlines (s : str) : nat :=
  match s with
  | c :: s' => if is_nl c then S (leading_newlines s') else 0
  | [] => 0
  end.

(** [re.sub(r'\n{3,}', '\n\n', content)]: matches are found from left to
    right and do not overlap, and [{3,}] is greedy, so a match is a whole run
    of newlines.  [sub_newlines] stands at a position where a match may
    begin; [sub_skip] consumes what is left of a run that has matched. *)
Fixpoint sub_newlines (s : str) : str :=
  match s with
  | [] => []
  | c :: s' =>
      if 3 <=? leading_newlines s then nl :: nl :: sub_skip s'
      else c :: sub_newlines s'
  end
with sub_skip (s : str) : str :=
  match s with
  | [] => []
  | c :: s' => if is_nl c then sub_skip s' else c :: sub_newlines s'
  end.

Definition clean_empty_lines (content : str) : str := sub_newlines content.

(** ** [main], for a file that exists and can be read and written *)

(** [Some c]: the file is overwritten with [c].  [None]: the script stops at
    [No deprecated methods found] and writes nothing. *)
Definition main (original_content : str) : option str :=
  match find_deprecated_methods original_content with
  | [] => None
  | blocks =>
      Some (clean_empty_lines
              (remove_deprecated_blocks original_content blocks))
  end.

(** The content of the file after one run. *)
Definition run (original_content : str) : str :=
  match main original_content with
  | Some cleaned_content => cleaned_content
  | None => original_content
  end.

(* ================================================================== *)
(** * Part II. Vocabulary of the specification                         *)
(* ================================================================== *)

(** A line, as opposed to a text, holds no newline. *)
Definition no_newline (line : str) : Prop := ~ In nl line.

(** [scans lines i bs rs]: started at index [i], the loop of the scanner
    appends the blocks [bs] and prints the reports [rs].  One constructor per
    path through the body of the loop. *)
Inductive scans (lines : list str) : nat -> list block -> list report -> Prop :=
| scans_done i :
    length lines <= i ->
    scans lines i [] []
| scans_plain i bs rs :
    i < length lines ->
    has_marker (nth i lines []) = false ->
    scans lines (i + 1) bs rs ->
    scans lines i bs rs
| scans_discard i bs rs :
    i < length lines ->
    has_marker (nth i lines []) = true ->
    length lines <= skip_to_signature (skipn (i + 1) lines) (i + 1) ->
    scans lines (i + 1) bs rs ->
    scans lines i bs rs
| scans_block i j end_line method_name bs rs :
    i < length lines ->
    has_marker (nth i lines []) = true ->
    j = skip_to_signature (skipn (i + 1) lines) (i + 1) ->
    j < length lines ->
    method_name = extract_method_name (strip (nth j lines [])) ->
    end_line = find_end (skipn j lines) j 0%Z false j ->
    scans lines (end_line + 1) bs rs ->
    scans lines i
      (mkBlock i end_line method_name
         (Z.of_nat end_line - Z.of_nat i + 1) :: bs)
      (mkReport method_name (i + 1) (end_line + 1)
         (Z.of_nat end_line - Z.of_nat i + 1) :: rs).

(** The inclusive range of a block reaches line [k]. *)
Definition covers (b : block) (k : nat) : bool :=
  (start b <=? k) && (k <=? end_ b).

Definition covered (blocks : list block) (k : nat) : bool :=
  existsb (fun b => covers b k) blocks.

(** Two blocks whose inclusive ranges do not intersect. *)
Definition disjoint (a b : block) : Prop :=
  end_ a < start b \/ end_ b < start a.

Definition pairwise_disjoint (blocks : list block) : Prop :=
  ForallOrdPairs disjoint blocks.

(** The single forward pass of the specification: copy the lines, numbered
    from [k], that no block covers. *)
Fixpoint keep_uncovered (blocks : list block) (k : nat) (lines : list str)
  : list str :=
  match lines with
  | [] => []
  | line :: more =>
      if covered blocks k then keep_uncovered blocks (S k) more
      else line :: keep_uncovered blocks (S k) more
  end.

Definition forward_pass (lines : list str) (blocks : list block) : list str :=
  keep_uncovered blocks 0 lines.

(** A block as the scanner resolves it in a document of [n] lines. *)
Definition resolved_in (n : nat) (b : block) : Prop :=
  start b <= end_ b /\ end_ b < n.

(** The removed-line total of the specification. *)
Definition total_removed (blocks : list block) : Z :=
  fold_right (fun b acc => (Z.of_nat (end_ b) - Z.of_nat (start b) + 1 + acc)%Z)
    0%Z blocks.

(** A document in which the scanner has nothing to find: after each marker
    line only blank lines and comments follow. *)
Fixpoint settled (lines : list str) : Prop :=
  match lines with
  | [] => True
  | line :: more =>
      (has_marker line = true -> Forall (fun l => blank_or_comment l = true) more)
      /\ settled more
  end.

(** [thinned l' l]: [l'] is [l] with some of its empty lines left out. *)
Inductive thinned : list str -> list str -> Prop :=
| thinned_nil : thinned [] []
| thinned_keep line l' l : thinned l' l -> thinned (line :: l') (line :: l)
| thinned_drop l' l : thinned l' l -> thinned l' ([] :: l).

(** [same_head_thinned l' l]: the first line is the same, and the later
    lines of [l'] are those of [l] with some empty ones left out. *)
Definition same_head_thinned (l' l : list str) : Prop :=
  match l', l with
  | h' :: t', h :: t => h' = h /\ thinned t' t
  | _, _ => False
  end.

(** The number of empty lines [lines] starts with. *)
Fixpoint leading_empty (lines : list str) : nat :=
  match lines with
  | [] :: more => S (leading_empty more)
  | _ => 0
  end.

(** The normalizer in the words of the specification, on lines: every
    maximal run of at least [least] empty lines becomes [becomes] empty
    lines, and every other line is copied.  [collapse_after_run] leaves out
    the rest of a run that has been replaced. *)
Fixpoint collapse_blank_runs (least becomes : nat) (lines : list str)
  : list str :=
  match lines with
  | [] => []
  | line :: more =>
      match line with
      | [] =>
          if least <=? leading_empty lines
          then repeat [] becomes ++ collapse_after_run least becomes more
          else [] :: collapse_blank_runs least becomes more
      | _ => line :: collapse_blank_runs least becomes more
      end
  end
with collapse_after_run (least becomes : nat) (lines : list str) : list str :=
  match lines with
  | [] => []
  | line :: more =>
      match line with
      | [] => collapse_after_run least becomes more
      | _ => line :: collapse_blank_runs least becomes more
      end
  end.

(** No three newlines in a row, from any position on. *)
Fixpoint calm (s : str) : Prop :=
  leading_newlines s < 3 /\
  match s with
  | [] => True
  | _ :: s' => calm s'
  end.

(** Scan, remove, normalize: the three stages in a row, as [main] chains
    them when the scanner has found something. *)
Definition pipeline (content : str) : str :=
  clean_empty_lines
    (remove_deprecated_blocks content (find_deprecated_methods content)).

(** ** Vocabulary for the properties of Part V *)

(** Opening braces minus closing braces in a text. *)
Fixpoint depth (s : str) : Z :=
  match s with
  | [] => 0%Z
  | c :: s' =>
      ((if Ascii.eqb c open_brace then 1
        else if Ascii.eqb c close_brace then -1 else 0) + depth s')%Z
  end.

Definition three_newlines : str := [nl; nl; nl].

Definition not_empty (line : str) : bool :=
  match line with
  | [] => false
  | _ :: _ => true
  end.


(** [func_match s pre w]: after [pre], the text [s] goes on with [func], one
    or more white space characters and the word [w], which ends there. *)
Definition func_match (s pre w : str) : Prop :=
  exists ws post,
    s = pre ++ lit "func" ++ ws ++ w ++ post /\
    ws <> [] /\ Forall (fun c => isspace c = true) ws /\
    w <> [] /\ Forall (fun c => isword c = true) w /\
    match post with
    | [] => True
    | c :: _ => isword c = false
    end.

(** The declaration line the scanner finds for a marker on line [i]. *)
Definition signature_line (lines : list str) (i : nat) : nat :=
  skip_to_signature (skipn (i + 1) lines) (i + 1).

(** ** Documents used as examples *)

Definition annotation : str :=
  lit "    @available(" ++ lit "*, deprecated, message: use b)".

(** The scenario of the specification: ten lines, the marker on the third. *)
Definition doc_scenario : str :=
  join_lines
    [lit "import Foundation"; lit "class A {"; annotation;
     lit "func a() {"; lit "  x = 1"; lit "}";
     lit "func b() {"; lit "  y = 2"; lit "}"; lit "}"].

(** A declaration that never opens a body. *)
Definition doc_unopened : str :=
  join_lines
    [lit "import X"; []; annotation; lit "func a()"; lit "let y = 2"].

(** A marker with only a comment after it. *)
Definition doc_trailing_marker : str :=
  join_lines [lit "let x = 1"; annotation; lit "// end"].

(** Six lines and two blocks, intersecting or not. *)
Definition doc_six : str :=
  join_lines [lit "a"; lit "b"; lit "c"; lit "d"; lit "e"; lit "f"].

Definition blocks_overlapping : list block :=
  [mkBlock 1 3 (lit "x") 3; mkBlock 2 4 (lit "y") 3].

Definition blocks_apart : list block :=
  [mkBlock 0 1 (lit "x") 2; mkBlock 3 4 (lit "y") 2].

(** Two empty lines between two lines, and three at the beginning. *)
Definition doc_two_blank : str := join_lines [lit "a"; []; []; lit "b"].

Definition doc_leading_blank : str := join_lines [[]; []; []; lit "b"].

Definition doc_inner_blank : str :=
  join_lines [lit "a"; lit "p"; []; []; []; lit "q"; lit "z"].

(** Two markers in a row, and a document that is one block. *)
Definition doc_adjacent_markers : str :=
  join_lines
    [lit "let x = 1"; annotation; annotation; lit "func a() {"; lit "}";
     lit "let y = 2"].

Definition doc_only_block : str :=
  join_lines [annotation; lit "func a() {"; lit "}"].


Definition blocks_apart_swapped : list block :=
  [mkBlock 3 4 (lit "y") 2; mkBlock 0 1 (lit "x") 2].

(* ================================================================== *)
(** * Part III. Lemmas                                                 *)
(* ================================================================== *)

(** ** Lines and texts *)

Lemma is_nl_true c : is_nl c = true <-> c = nl.
Proof. unfold is_nl. apply Ascii.eqb_eq. Qed.

Lemma is_nl_false c : is_nl c = false <-> c <> nl.
Proof. unfold is_nl. apply Ascii.eqb_neq. Qed.

Lemma split_lines_not_nil content : split_lines content <> [].
Proof.
  destruct content as [|c rest]; simpl; [discriminate|].
  destruct (is_nl c); [discriminate|].
  destruct (split_lines rest); discriminate.
Qed.

Lemma split_lines_length content : 1 <= length (split_lines content).
Proof.
  pose proof (split_lines_not_nil content) as H.
  destruct (split_lines content); [congruence | simpl; lia].
Qed.

Lemma join_lines_cons line more :
  more <> [] -> join_lines (line :: more) = line ++ nl :: join_lines more.
Proof. destruct more; [congruence | reflexivity]. Qed.

Lemma join_split content : join_lines (split_lines content) = content.
Proof.
  induction content as [|c rest IH]; simpl; [reflexivity|].
  destruct (is_nl c) eqn:Hc.
  - apply is_nl_true in Hc. subst c.
    rewrite join_lines_cons by apply split_lines_not_nil.
    simpl. now rewrite IH.
  - pose proof (split_lines_not_nil rest) as Hne.
    destruct (split_lines rest) as [|line more]; [congruence|].
    destruct more as [|l2 more]; simpl in *; now rewrite <- IH.
Qed.

Lemma split_lines_line line : no_newline line -> split_lines line = [line].
Proof.
  unfold no_newline. induction line as [|c rest IH]; simpl; intros H.
  - reflexivity.
  - destruct (is_nl c) eqn:Hc.
    + apply is_nl_true in Hc. tauto.
    + rewrite IH by tauto. reflexivity.
Qed.

Lemma split_lines_app_nl line rest :
  no_newline line ->
  split_lines (line ++ nl :: rest) = line :: split_lines rest.
Proof.
  unfold no_newline. induction line as [|c line IH]; simpl; intros H.
  - reflexivity.
  - destruct (is_nl c) eqn:Hc.
    + apply is_nl_true in Hc. tauto.
    + rewrite IH by tauto. reflexivity.
Qed.

Lemma split_join lines :
  lines <> [] -> Forall no_newline lines ->
  split_lines (join_lines lines) = lines.
Proof.
  induction lines as [|line more IH]; intros Hne Hall; [congruence|].
  inversion Hall as [|? ? Hline Hmore]; subst.
  destruct more as [|l2 more].
  - simpl. now apply split_lines_line.
  - rewrite join_lines_cons by discriminate.
    rewrite split_lines_app_nl by assumption.
    f_equal. apply IH; [discriminate | assumption].
Qed.

Lemma split_lines_no_newline content : Forall no_newline (split_lines content).
Proof.
  induction content as [|c rest IH]; simpl.
  - constructor; [intros [] | constructor].
  - destruct (is_nl c) eqn:Hc.
    + constructor; [intros [] | assumption].
    + pose proof (split_lines_not_nil rest) as Hne.
      destruct (split_lines rest) as [|line more]; [congruence|].
      inversion IH; subst.
      constructor; [|assumption].
      apply is_nl_false in Hc. intros [E|E]; [congruence | contradiction].
Qed.
(** ** The inner loops of the scanner *)

Lemma skip_to_signature_ge rest j : j <= skip_to_signature rest j.
Proof.
  revert j. induction rest as [|line rest IH]; intros j; simpl; [lia|].
  destruct (blank_or_comment line); [|lia].
  specialize (IH (S j)). lia.
Qed.

Lemma skip_to_signature_le rest j :
  skip_to_signature rest j <= j + length rest.
Proof.
  revert j. induction rest as [|line rest IH]; intros j; simpl; [lia|].
  destruct (blank_or_comment line); [|lia].
  specialize (IH (S j)). lia.
Qed.

(** The loop stops on a line that is neither blank nor a comment. *)
Lemma skip_to_signature_stops rest j :
  skip_to_signature rest j < j + length rest ->
  blank_or_comment (nth (skip_to_signature rest j - j) rest []) = false.
Proof.
  revert j. induction rest as [|line rest IH]; intros j; simpl; [lia|].
  destruct (blank_or_comment line) eqn:Hb.
  - intros H. pose proof (skip_to_signature_ge rest (S j)).
    replace (skip_to_signature rest (S j) - j)
      with (S (skip_to_signature rest (S j) - S j)) by lia.
    apply IH. lia.
  - intros _. now rewrite Nat.sub_diag.
Qed.

(** It runs to the end when only blank lines and comments are left. *)
Lemma skip_to_signature_all rest j :
  Forall (fun l => blank_or_comment l = true) rest ->
  skip_to_signature rest j = j + length rest.
Proof.
  intros H. revert j. induction H as [|line rest Hl _ IH]; intros j; simpl.
  - lia.
  - rewrite Hl, IH. lia.
Qed.

Lemma skip_to_signature_end rest j :
  skip_to_signature rest j = j + length rest ->
  Forall (fun l => blank_or_comment l = true) rest.
Proof.
  revert j. induction rest as [|line rest IH]; intros j; simpl; [constructor|].
  destruct (blank_or_comment line) eqn:Hb; [|lia].
  intros H. constructor; [assumption|]. apply (IH (S j)). lia.
Qed.

(** The end line is the declaration line it was initialised to, or a line
    of the part that was scanned. *)
Lemma find_end_range rest k brace_count found_opening end_line :
  let e := find_end rest k brace_count found_opening end_line in
  e = end_line \/ (k <= e /\ e < k + length rest).
Proof.
  revert k brace_count found_opening.
  induction rest as [|line rest IH]; intros k c f; simpl; [now left|].
  destruct (count_braces line c f) as [[c' f'] hit].
  destruct hit; [right; lia|].
  destruct (f' && (c' =? 0)%Z); [now left|].
  destruct (IH (S k) c' f') as [H|H]; [now left | right; lia].
Qed.

Lemma find_end_bounds lines j :
  j < length lines ->
  let e := find_end (skipn j lines) j 0%Z false j in
  j <= e /\ e < length lines.
Proof.
  intros Hj e.
  destruct (find_end_range (skipn j lines) j 0%Z false j) as [H|H];
    fold e in H; rewrite ?length_skipn in H; lia.
Qed.

(** A line without an opening brace leaves the scan where it was. *)
Lemma count_braces_no_open line brace_count :
  ~ In open_brace line ->
  exists c, count_braces line brace_count false = (c, false, false).
Proof.
  revert brace_count. induction line as [|ch line IH]; intros c H; simpl.
  - now exists c.
  - destruct (Ascii.eqb ch open_brace) eqn:Ho.
    + apply Ascii.eqb_eq in Ho. subst. exfalso. apply H. now left.
    + destruct (Ascii.eqb ch close_brace); simpl; apply IH;
        intros Hin; apply H; now right.
Qed.

Lemma find_end_no_open rest k brace_count end_line :
  Forall (fun line => ~ In open_brace line) rest ->
  find_end rest k brace_count false end_line = end_line.
Proof.
  intros H. revert k brace_count.
  induction H as [|line rest Hl _ IH]; intros k c; simpl; [reflexivity|].
  destruct (count_braces_no_open line c Hl) as [c' ->]. simpl. apply IH.
Qed.

(** ** The loop of the scanner and its big-step description *)

Lemma nth_skipn_cons {A : Type} (l : list A) i d :
  i < length l -> skipn i l = nth i l d :: skipn (i + 1) l.
Proof.
  revert i. induction l as [|x l IH]; intros i H; simpl in *; [lia|].
  destruct i as [|i]; simpl; [reflexivity|].
  apply IH. lia.
Qed.

(** Enough fuel: the loop follows [scans] and only appends to its state. *)
Lemma scan_loop_scans lines fuel : forall i st,
  length lines - i <= fuel ->
  exists bs rs,
    scans lines i bs rs /\
    scan_loop fuel lines i st =
      mkScan (deprecated_blocks st ++ bs) (printed st ++ rs).
Proof.
  induction fuel as [|fuel IH]; intros i st Hfuel.
  - exists [], []. split; [constructor; lia|].
    simpl. rewrite !app_nil_r. now destruct st.
  - simpl. destruct (i <? length lines) eqn:Hi.
    2:{ apply Nat.ltb_ge in Hi. exists [], []. split; [now constructor|].
        rewrite !app_nil_r. now destruct st. }
    apply Nat.ltb_lt in Hi.
    destruct (has_marker (nth i lines [])) eqn:Hm.
    2:{ destruct (IH (i + 1) st) as (bs & rs & Hs & E); [lia|].
        exists bs, rs. split; [now apply scans_plain | exact E]. }
    destruct (length lines <=? _) eqn:Hj.
    + apply Nat.leb_le in Hj.
      destruct (IH (i + 1) st) as (bs & rs & Hs & E); [lia|].
      exists bs, rs. split; [now apply scans_discard | exact E].
    + apply Nat.leb_gt in Hj.
      set (j := skip_to_signature (skipn (i + 1) lines) (i + 1)) in *.
      set (e := find_end (skipn j lines) j 0%Z false j).
      pose proof (skip_to_signature_ge (skipn (i + 1) lines) (i + 1)) as Hge.
      fold j in Hge.
      destruct (find_end_bounds lines j Hj) as [He1 He2]. fold e in He1, He2.
      destruct (IH (e + 1)
                  (found st i e (extract_method_name (strip (nth j lines [])))))
        as (bs & rs & Hs & E); [lia|].
      eexists (_ :: bs), (_ :: rs). split.
      * eapply scans_block; eauto.
      * rewrite E. unfold found. simpl. now rewrite <- !app_assoc.
Qed.

(** What a derivation yields is what the script returns. *)
Lemma find_deprecated_state_scans content :
  exists rs,
    scans (split_lines content) 0 (find_deprecated_methods content) rs /\
    printed (find_deprecated_state content) = rs.
Proof.
  unfold find_deprecated_methods, find_deprecated_state.
  destruct (scan_loop_scans (split_lines content)
              (length (split_lines content)) 0 scan_start)
    as (bs & rs & Hs & E); [lia|].
  rewrite E. simpl. now exists rs.
Qed.

Lemma scans_functional lines i bs rs :
  scans lines i bs rs ->
  forall bs' rs', scans lines i bs' rs' -> bs = bs' /\ rs = rs'.
Proof.
  induction 1 as [i Hi | i bs rs Hi Hm _ IH | i bs rs Hi Hm Hj _ IH
                 | i j e nm bs rs Hi Hm Ej Hj En Ee _ IH];
    intros bs' rs' H'; inversion H'; subst; try lia; try congruence.
  - now split.
  - now apply IH.
  - now apply IH.
  - match goal with H : scans _ _ _ _ |- _ =>
      destruct (IH _ _ H) as [-> ->] end.
    now split.
Qed.

(** The fuel of [find_deprecated_methods] is never the reason to stop: any
    larger amount gives the same state. *)
Lemma scan_loop_fuel lines fuel fuel' i st :
  length lines - i <= fuel -> length lines - i <= fuel' ->
  scan_loop fuel lines i st = scan_loop fuel' lines i st.
Proof.
  intros H H'.
  destruct (scan_loop_scans lines fuel i st H) as (bs & rs & Hs & ->).
  destruct (scan_loop_scans lines fuel' i st H') as (bs' & rs' & Hs' & ->).
  destruct (scans_functional _ _ _ _ Hs _ _ Hs') as [-> ->]. reflexivity.
Qed.

(** ** What the scanner returns *)

(** Every block starts where the loop stood or later, ends after its start
    and inside the document. *)
Lemma scans_range lines i bs rs :
  scans lines i bs rs ->
  Forall (fun b => i <= start b /\ start b < end_ b /\ end_ b < length lines)
    bs.
Proof.
  induction 1 as [i Hi | i bs rs Hi Hm _ IH | i bs rs Hi Hm Hj _ IH
                 | i j e nm bs rs Hi Hm Ej Hj En Ee _ IH].
  - constructor.
  - eapply Forall_impl; [|exact IH]. simpl. intros b. lia.
  - eapply Forall_impl; [|exact IH]. simpl. intros b. lia.
  - pose proof (skip_to_signature_ge (skipn (i + 1) lines) (i + 1)) as Hge.
    rewrite <- Ej in Hge.
    destruct (find_end_bounds lines j Hj) as [He1 He2]. rewrite <- Ee in He1, He2.
    constructor; [simpl; lia|].
    eapply Forall_impl; [|exact IH]. simpl. intros b. lia.
Qed.

(** Each block ends before the next one starts. *)
Lemma scans_chain lines i bs rs :
  scans lines i bs rs ->
  StronglySorted (fun a b => end_ a < start b) bs.
Proof.
  induction 1 as [i Hi | i bs rs Hi Hm _ IH | i bs rs Hi Hm Hj _ IH
                 | i j e nm bs rs Hi Hm Ej Hj En Ee Hs IH];
    try assumption; [constructor|].
  constructor; [assumption|].
  apply scans_range in Hs.
  eapply Forall_impl; [|exact Hs]. simpl. intros b. lia.
Qed.

(** Every block starts on a marker line that has a declaration line. *)
Lemma scans_starts lines i bs rs :
  scans lines i bs rs ->
  Forall (fun b =>
            has_marker (nth (start b) lines []) = true /\
            skip_to_signature (skipn (start b + 1) lines) (start b + 1)
              < length lines) bs.
Proof.
  induction 1 as [i Hi | i bs rs Hi Hm _ IH | i bs rs Hi Hm Hj _ IH
                 | i j e nm bs rs Hi Hm Ej Hj En Ee Hs IH];
    try assumption; [constructor|].
  constructor; [|assumption]. simpl. split; [assumption|]. now rewrite <- Ej.
Qed.

(** One report is printed for each block, with both ends counted from 1. *)
Lemma scans_reports lines i bs rs :
  scans lines i bs rs ->
  rs = map (fun b => mkReport (name b) (start b + 1) (end_ b + 1) (n_lines b))
         bs.
Proof.
  induction 1; simpl; try assumption; [reflexivity|].
  now f_equal.
Qed.

Lemma chain_ascending bs :
  Forall (fun b => start b <= end_ b) bs ->
  StronglySorted (fun a b => end_ a < start b) bs ->
  StronglySorted (fun a b => start a < start b) bs.
Proof.
  intros Hwf H. induction H as [|b bs _ IH Hb]; [constructor|].
  inversion Hwf as [|? ? Hle Hwf']; subst.
  constructor; [now apply IH|].
  eapply Forall_impl; [|exact Hb]. simpl. intros b'. lia.
Qed.

Lemma chain_pairwise_disjoint bs :
  StronglySorted (fun a b => end_ a < start b) bs -> pairwise_disjoint bs.
Proof.
  induction 1 as [|b bs _ IH Hb]; [constructor|].
  constructor; [|exact IH].
  eapply Forall_impl; [|exact Hb]. intros b' H'. now left.
Qed.

(** Only blank lines and comments after line [i]: the loop, standing at [i]
    or later, changes nothing. *)
Lemma scan_loop_trailing lines fuel : forall i st,
  Forall (fun l => blank_or_comment l = true) (skipn (i + 1) lines) ->
  scan_loop fuel lines i st = st.
Proof.
  induction fuel as [|fuel IH]; intros i st Hall; [reflexivity|].
  assert (Hnext : Forall (fun l => blank_or_comment l = true)
                    (skipn (i + 1 + 1) lines)).
  { destruct (le_lt_dec (length lines) (i + 1)) as [Hl|Hl].
    - rewrite skipn_all2 by lia. constructor.
    - rewrite (nth_skipn_cons lines (i + 1) [] Hl) in Hall.
      now inversion Hall. }
  simpl. destruct (i <? length lines) eqn:Hi; [|reflexivity].
  destruct (has_marker (nth i lines [])).
  - rewrite (skip_to_signature_all _ (i + 1) Hall), length_skipn.
    apply Nat.ltb_lt in Hi.
    replace (length lines <=? i + 1 + (length lines - (i + 1))) with true
      by (symmetry; apply Nat.leb_le; lia).
    now apply IH.
  - now apply IH.
Qed.

(** Lines without a marker are stepped over one at a time. *)
Lemma scan_loop_plain lines n : forall fuel i st,
  i + n <= length lines ->
  (forall k, i <= k < i + n -> has_marker (nth k lines []) = false) ->
  scan_loop (n + fuel) lines i st = scan_loop fuel lines (i + n) st.
Proof.
  induction n as [|n IH]; intros fuel i st Hlen Hplain.
  - now rewrite Nat.add_0_r.
  - simpl. replace (i <? length lines) with true
      by (symmetry; apply Nat.ltb_lt; lia).
    rewrite Hplain by lia.
    rewrite IH; [f_equal; lia | lia | intros k Hk; apply Hplain; lia].
Qed.

(** The step of the loop on a marker line that has a declaration line. *)
Lemma scan_loop_block lines fuel i st j end_line :
  i < length lines ->
  has_marker (nth i lines []) = true ->
  j = skip_to_signature (skipn (i + 1) lines) (i + 1) ->
  j < length lines ->
  end_line = find_end (skipn j lines) j 0%Z false j ->
  scan_loop (S fuel) lines i st =
    scan_loop fuel lines (end_line + 1)
      (found st i end_line (extract_method_name (strip (nth j lines [])))).
Proof.
  intros Hi Hm -> Hj ->. simpl.
  apply Nat.ltb_lt in Hi. rewrite Hi, Hm.
  apply Nat.leb_gt in Hj. rewrite Hj. reflexivity.
Qed.

(** The step of the loop on a marker line that has none. *)
Lemma scan_loop_discard lines fuel i st :
  i < length lines ->
  has_marker (nth i lines []) = true ->
  length lines <= skip_to_signature (skipn (i + 1) lines) (i + 1) ->
  scan_loop (S fuel) lines i st = scan_loop fuel lines (i + 1) st.
Proof.
  intros Hi Hm Hj. simpl.
  apply Nat.ltb_lt in Hi. rewrite Hi, Hm.
  apply Nat.leb_le in Hj. rewrite Hj. reflexivity.
Qed.

(** Checking by computation that a character does not occur. *)
Lemma not_In_check (c : ascii) (s : list ascii) :
  forallb (fun x => negb (Ascii.eqb x c)) s = true -> ~ In c s.
Proof.
  intros H Hin. rewrite forallb_forall in H. specialize (H c Hin).
  now rewrite Ascii.eqb_refl in H.
Qed.

Lemma Forall_check {A : Type} (P : A -> Prop) (p : A -> bool) (l : list A) :
  (forall x, p x = true -> P x) -> forallb p l = true -> Forall P l.
Proof.
  intros Hp H. rewrite forallb_forall in H. apply Forall_forall. auto.
Qed.

(** ** The forward pass *)

Lemma covered_false blocks k :
  covered blocks k = false <-> Forall (fun b => covers b k = false) blocks.
Proof.
  unfold covered. induction blocks as [|b blocks IH]; simpl.
  - split; [constructor | reflexivity].
  - rewrite orb_false_iff, IH. split.
    + intros [H1 H2]. now constructor.
    + intros H. now inversion H.
Qed.

Lemma covered_perm blocks blocks' k :
  Permutation blocks blocks' -> covered blocks k = covered blocks' k.
Proof.
  unfold covered. induction 1; simpl.
  - reflexivity.
  - now f_equal.
  - rewrite !orb_assoc. f_equal. apply orb_comm.
  - congruence.
Qed.

Lemma covered_app blocks blocks' k :
  covered (blocks ++ blocks') k = covered blocks k || covered blocks' k.
Proof. unfold covered. apply existsb_app. Qed.

Lemma keep_uncovered_app blocks l1 : forall k l2,
  keep_uncovered blocks k (l1 ++ l2) =
  keep_uncovered blocks k l1 ++ keep_uncovered blocks (k + length l1) l2.
Proof.
  induction l1 as [|line l1 IH]; intros k l2; simpl.
  - now rewrite Nat.add_0_r.
  - rewrite IH. replace (S k + length l1) with (k + S (length l1)) by lia.
    now destruct (covered blocks k).
Qed.

Lemma keep_uncovered_ext blocks blocks' l : forall k,
  (forall i, k <= i < k + length l -> covered blocks i = covered blocks' i) ->
  keep_uncovered blocks k l = keep_uncovered blocks' k l.
Proof.
  induction l as [|line l IH]; intros k H; simpl; [reflexivity|].
  rewrite (H k) by (simpl; lia).
  rewrite (IH (S k)); [reflexivity|].
  intros i Hi. apply H. simpl. lia.
Qed.

Lemma keep_uncovered_none blocks l : forall k,
  (forall i, k <= i < k + length l -> covered blocks i = false) ->
  keep_uncovered blocks k l = l.
Proof.
  induction l as [|line l IH]; intros k H; simpl; [reflexivity|].
  rewrite (H k) by (simpl; lia).
  rewrite (IH (S k)); [reflexivity|].
  intros i Hi. apply H. simpl. lia.
Qed.

Lemma keep_uncovered_all blocks l : forall k,
  (forall i, k <= i < k + length l -> covered blocks i = true) ->
  keep_uncovered blocks k l = [].
Proof.
  induction l as [|line l IH]; intros k H; simpl; [reflexivity|].
  rewrite (H k) by (simpl; lia).
  apply IH. intros i Hi. apply H. simpl. lia.
Qed.

Lemma keep_uncovered_Forall (P : list ascii -> Prop) blocks l : forall k,
  Forall P l -> Forall P (keep_uncovered blocks k l).
Proof.
  induction l as [|line l IH]; intros k H; simpl; [constructor|].
  inversion H; subst.
  destruct (covered blocks k); [now apply IH | constructor; auto].
Qed.

Lemma forward_pass_nil lines : forward_pass lines [] = lines.
Proof. apply keep_uncovered_none. reflexivity. Qed.

(** ** Deleting a slice *)

Lemma del_slice_empty {A : Type} (l : list A) a b :
  b <= a -> del_slice l a b = l.
Proof.
  intros H. unfold del_slice. rewrite Nat.max_l by lia. apply firstn_skipn.
Qed.

Lemma del_slice_length {A : Type} (l : list A) a b :
  a <= b -> b <= length l -> length (del_slice l a b) + (b - a) = length l.
Proof.
  intros H1 H2. unfold del_slice.
  rewrite Nat.max_r, length_app, length_firstn, length_skipn by lia. lia.
Qed.

Lemma del_slice_length_le {A : Type} (l : list A) a b :
  length (del_slice l a b) <= length l.
Proof.
  unfold del_slice. rewrite length_app, length_firstn, length_skipn. lia.
Qed.

(** Below the lowest block the forward pass copies the lines as they are. *)
Lemma keep_uncovered_prefix blocks lines n :
  (forall i, i < n -> covered blocks i = false) ->
  keep_uncovered blocks 0 lines =
  firstn n lines ++ keep_uncovered blocks (length (firstn n lines)) (skipn n lines).
Proof.
  intros H. rewrite <- (firstn_skipn n lines) at 1.
  rewrite keep_uncovered_app. f_equal.
  apply keep_uncovered_none. intros i Hi.
  apply H. rewrite length_firstn in Hi. lia.
Qed.

(** One deletion of the executor is one more block in the forward pass, as
    long as nothing was deleted at or below the end of the block. *)
Lemma del_slice_forward blocks b lines :
  (start b <= end_ b -> forall i, i <= end_ b -> covered blocks i = false) ->
  del_slice (keep_uncovered blocks 0 lines) (start b) (end_ b + 1) =
  keep_uncovered (b :: blocks) 0 lines.
Proof.
  intros H. destruct (le_lt_dec (start b) (end_ b)) as [Hse|Hse].
  - specialize (H Hse).
    set (s := start b) in *. set (e := end_ b) in *.
    assert (Hb : forall i, covers b i = (s <=? i) && (i <=? e)) by reflexivity.
    rewrite (keep_uncovered_prefix blocks lines (e + 1))
      by (intros i Hi; apply H; lia).
    rewrite (keep_uncovered_prefix (b :: blocks) lines s).
    2:{ intros i Hi. simpl. rewrite Hb, H by lia.
        replace (s <=? i) with false by (symmetry; apply Nat.leb_gt; lia).
        reflexivity. }
    rewrite <- (firstn_skipn (e + 1 - s) (skipn s lines)).
    rewrite keep_uncovered_app.
    rewrite (keep_uncovered_all (b :: blocks) (firstn (e + 1 - s) (skipn s lines))).
    2:{ intros i Hi. rewrite !length_firstn, length_skipn in Hi.
        simpl. rewrite Hb.
        replace (s <=? i) with true by (symmetry; apply Nat.leb_le; lia).
        replace (i <=? e) with true by (symmetry; apply Nat.leb_le; lia).
        reflexivity. }
    rewrite skipn_skipn. replace (e + 1 - s + s) with (e + 1) by lia.
    rewrite !length_firstn, length_skipn. simpl.
    rewrite (keep_uncovered_ext (b :: blocks) blocks).
    2:{ intros i Hi. rewrite length_skipn in Hi. simpl. rewrite Hb.
        replace (i <=? e) with false by (symmetry; apply Nat.leb_gt; lia).
        now rewrite andb_false_r. }
    replace (Nat.min s (length lines)
             + Nat.min (e + 1 - s) (length lines - s))
      with (Nat.min (e + 1) (length lines)) by lia.
    set (tail := keep_uncovered blocks _ _).
    unfold del_slice. rewrite Nat.max_r by lia.
    rewrite firstn_app, skipn_app, firstn_firstn, length_firstn.
    replace (Nat.min s (e + 1)) with s by lia.
    rewrite (skipn_all2 (firstn (e + 1) lines))
      by (rewrite length_firstn; lia).
    destruct (le_lt_dec (e + 1) (length lines)) as [Hl|Hl].
    + replace (s - Nat.min (e + 1) (length lines)) with 0 by lia.
      replace (e + 1 - Nat.min (e + 1) (length lines)) with 0 by lia.
      simpl. now rewrite app_nil_r.
    + assert (tail = []) as ->.
      { unfold tail. rewrite skipn_all2 by lia. reflexivity. }
      now rewrite firstn_nil, skipn_nil, !app_nil_r.
  - rewrite del_slice_empty by lia.
    apply keep_uncovered_ext. intros i _. simpl.
    unfold covers.
    destruct (start b <=? i) eqn:H1; [|reflexivity].
    apply Nat.leb_le in H1.
    replace (i <=? end_ b) with false by (symmetry; apply Nat.leb_gt; lia).
    reflexivity.
Qed.

(** ** Sorting the blocks *)

Lemma insert_desc_perm b sorted : Permutation (insert_desc b sorted) (b :: sorted).
Proof.
  induction sorted as [|b' rest IH]; simpl; [reflexivity|].
  destruct (start b' <=? start b); [reflexivity|].
  rewrite IH. apply perm_swap.
Qed.

Lemma sorted_reverse_perm blocks : Permutation (sorted_reverse blocks) blocks.
Proof.
  induction blocks as [|b blocks IH]; simpl; [reflexivity|].
  rewrite insert_desc_perm. now constructor.
Qed.

Lemma insert_desc_sorted b sorted :
  Sorted (fun x y => start y <= start x) sorted ->
  Sorted (fun x y => start y <= start x) (insert_desc b sorted).
Proof.
  induction 1 as [|b' rest Hrest IH Hhd]; simpl.
  - repeat constructor.
  - destruct (start b' <=? start b) eqn:Hle.
    + apply Nat.leb_le in Hle. repeat constructor; assumption.
    + apply Nat.leb_gt in Hle. constructor; [exact IH|].
      destruct rest as [|b'' rest]; simpl.
      * constructor. lia.
      * destruct (start b'' <=? start b); constructor.
        -- lia.
        -- now inversion Hhd.
Qed.

Lemma sorted_reverse_sorted blocks :
  StronglySorted (fun x y => start y <= start x) (sorted_reverse blocks).
Proof.
  apply Sorted_StronglySorted.
  - intros x y z Hxy Hyz. lia.
  - induction blocks as [|b blocks IH]; simpl;
      [constructor | now apply insert_desc_sorted].
Qed.

Lemma disjoint_sym a b : disjoint a b -> disjoint b a.
Proof. unfold disjoint. tauto. Qed.

Lemma pairwise_disjoint_perm blocks blocks' :
  Permutation blocks blocks' ->
  pairwise_disjoint blocks -> pairwise_disjoint blocks'.
Proof.
  unfold pairwise_disjoint.
  induction 1 as [|b l l' Hp IH|a b l|l l' l'' _ IH1 _ IH2]; intros H.
  - constructor.
  - inversion H; subst. constructor; [|now apply IH].
    eapply Permutation_Forall; eassumption.
  - inversion H as [|? ? Hb Hrest]; subst.
    inversion Hrest as [|? ? Ha Hl]; subst.
    inversion Hb as [|? ? Hba Hbl]; subst.
    constructor; [constructor; [now apply disjoint_sym | assumption]|].
    constructor; assumption.
  - auto.
Qed.

(** ** The loop of the executor *)

Lemma disjoint_uncovered b d i :
  disjoint b d -> start b <= start d -> i <= end_ b -> covers d i = false.
Proof.
  unfold disjoint, covers. intros Hd Hs Hi.
  apply andb_false_iff. rewrite !Nat.leb_gt. lia.
Qed.

(** Deleting in descending order of [start]: with [done] already deleted,
    all of them disjoint from and starting no lower than what is left to
    delete, each deletion adds one block to the forward pass. *)
Lemma remove_loop_fold lines bs : forall done total,
  StronglySorted (fun x y => start y <= start x) bs ->
  pairwise_disjoint bs ->
  (forall b d, In b bs -> In d done -> disjoint b d /\ start b <= start d) ->
  fold_left remove_block bs (keep_uncovered done 0 lines, total) =
  (keep_uncovered (rev bs ++ done) 0 lines, (total + total_removed bs)%Z).
Proof.
  induction bs as [|b bs IH]; intros done total Hsort Hdisj Hdone.
  - simpl. now rewrite Z.add_0_r.
  - inversion Hsort as [|? ? Hsort' Hb]; subst.
    inversion Hdisj as [|? ? Hbd Hdisj']; subst.
    simpl fold_left.
    rewrite del_slice_forward.
    2:{ intros _ i Hi. apply covered_false, Forall_forall. intros d Hd.
        destruct (Hdone b d (or_introl eq_refl) Hd) as [H1 H2].
        now apply (disjoint_uncovered b d i). }
    rewrite IH; try assumption.
    + simpl. rewrite <- app_assoc. simpl. f_equal. lia.
    + intros b' d Hb' [<-|Hd].
      * rewrite Forall_forall in Hb, Hbd.
        split; [apply disjoint_sym; now apply Hbd | now apply Hb].
      * apply Hdone; [now right | assumption].
Qed.

Lemma remove_loop_forward lines blocks :
  pairwise_disjoint blocks ->
  remove_loop lines blocks = (forward_pass lines blocks, total_removed blocks).
Proof.
  intros Hdisj. unfold remove_loop.
  rewrite <- (forward_pass_nil lines) at 1. unfold forward_pass.
  rewrite remove_loop_fold.
  - f_equal.
    + apply keep_uncovered_ext. intros i _. apply covered_perm.
      rewrite app_nil_r, <- Permutation_rev. apply sorted_reverse_perm.
    + rewrite Z.add_0_l. clear Hdisj. unfold total_removed.
      generalize (sorted_reverse_perm blocks).
      generalize (sorted_reverse blocks).
      intros l Hp. induction Hp; simpl; lia.
  - apply sorted_reverse_sorted.
  - eapply pairwise_disjoint_perm; [|exact Hdisj].
    symmetry. apply sorted_reverse_perm.
  - intros b d _ [].
Qed.

(** The total the executor prints is the sum over the blocks, whatever the
    blocks are. *)
Lemma remove_loop_total lines blocks :
  snd (remove_loop lines blocks) = total_removed blocks.
Proof.
  unfold remove_loop.
  assert (H : forall bs l t,
             snd (fold_left remove_block bs (l, t)) = (t + total_removed bs)%Z).
  { induction bs as [|b bs IH]; intros l t; simpl; [lia|].
    rewrite IH. lia. }
  rewrite H, Z.add_0_l. unfold total_removed.
  generalize (sorted_reverse_perm blocks). generalize (sorted_reverse blocks).
  intros l Hp. induction Hp; simpl; lia.
Qed.

(** With [done] deleted, a block that lies in the document and below all of
    [done] takes exactly its own lines away. *)
Lemma forward_pass_length_step done b lines :
  start b <= end_ b -> end_ b < length lines ->
  (forall i, i <= end_ b -> covered done i = false) ->
  length (keep_uncovered (b :: done) 0 lines) + (end_ b + 1 - start b) =
  length (keep_uncovered done 0 lines).
Proof.
  intros Hse He Hdone.
  rewrite <- del_slice_forward by (intros _; exact Hdone).
  apply del_slice_length; [lia|].
  rewrite (keep_uncovered_prefix done lines (end_ b + 1))
    by (intros i Hi; apply Hdone; lia).
  rewrite length_app, length_firstn. lia.
Qed.

Lemma forward_pass_length lines bs : forall done,
  StronglySorted (fun x y => start y <= start x) bs ->
  pairwise_disjoint bs ->
  Forall (resolved_in (length lines)) bs ->
  (forall b d, In b bs -> In d done -> disjoint b d /\ start b <= start d) ->
  (Z.of_nat (length (keep_uncovered (rev bs ++ done) 0 lines)) =
   Z.of_nat (length (keep_uncovered done 0 lines)) - total_removed bs)%Z.
Proof.
  induction bs as [|b bs IH]; intros done Hsort Hdisj Hres Hdone.
  - simpl. lia.
  - inversion Hsort as [|? ? Hsort' Hb]; subst.
    inversion Hdisj as [|? ? Hbd Hdisj']; subst.
    inversion Hres as [|? ? [Hse He] Hres']; subst.
    simpl. rewrite <- app_assoc. simpl.
    rewrite IH; try assumption.
    + pose proof (forward_pass_length_step done b lines Hse He) as Hstep.
      rewrite <- Hstep; [lia|].
      intros i Hi. apply covered_false, Forall_forall. intros d Hd.
      destruct (Hdone b d (or_introl eq_refl) Hd) as [H1 H2].
      now apply (disjoint_uncovered b d i).
    + intros b' d Hb' [<-|Hd].
      * rewrite Forall_forall in Hb, Hbd.
        split; [apply disjoint_sym; now apply Hbd | now apply Hb].
      * apply Hdone; [now right | assumption].
Qed.

Lemma remove_loop_length lines blocks :
  pairwise_disjoint blocks ->
  Forall (resolved_in (length lines)) blocks ->
  (Z.of_nat (length (fst (remove_loop lines blocks))) =
   Z.of_nat (length lines) - total_removed blocks)%Z.
Proof.
  intros Hdisj Hres.
  assert (Hperm := sorted_reverse_perm blocks).
  rewrite remove_loop_forward by assumption. simpl. unfold forward_pass.
  rewrite (keep_uncovered_ext blocks (rev (sorted_reverse blocks) ++ [])).
  2:{ intros i _. apply covered_perm.
      rewrite app_nil_r, <- Permutation_rev. now symmetry. }
  rewrite forward_pass_length.
  - fold (forward_pass lines []). rewrite forward_pass_nil.
    f_equal. unfold total_removed. clear Hdisj Hres.
    induction Hperm; simpl; lia.
  - apply sorted_reverse_sorted.
  - eapply pairwise_disjoint_perm; [symmetry; exact Hperm | exact Hdisj].
  - eapply Permutation_Forall; [symmetry; exact Hperm | exact Hres].
  - intros b d _ [].
Qed.

(** The executor never grows the document, and a block that starts inside it
    and is not empty makes it shorter, whatever the other blocks are. *)
Lemma remove_fold_le bs : forall l t,
  length (fst (fold_left remove_block bs (l, t))) <= length l.
Proof.
  induction bs as [|b bs IH]; intros l t; simpl; [lia|].
  etransitivity; [apply IH | apply del_slice_length_le].
Qed.

Lemma remove_fold_shrinks b bs : forall l t,
  In b bs -> start b <= end_ b -> start b < length l ->
  length (fst (fold_left remove_block bs (l, t))) < length l.
Proof.
  induction bs as [|b' bs IH]; intros l t Hin Hse Hs; [destruct Hin|].
  simpl.
  set (l' := del_slice l (start b') (end_ b' + 1)).
  set (t' := (t + _)%Z).
  pose proof (remove_fold_le bs l' t') as Hle.
  pose proof (del_slice_length_le l (start b') (end_ b' + 1)) as Hle'.
  fold l' in Hle'.
  destruct Hin as [->|Hin].
  - assert (length l' < length l); [|lia].
    unfold l', del_slice.
    rewrite Nat.max_r, length_app, length_firstn, length_skipn by lia. lia.
  - destruct (Nat.eq_dec (length l') (length l)) as [E|E]; [|lia].
    rewrite <- E. apply IH; [assumption | assumption | lia].
Qed.

(** ** Documents in which nothing is left to find *)

Lemma thinned_Forall (P : list ascii -> Prop) l' l :
  thinned l' l -> Forall P l -> Forall P l'.
Proof.
  induction 1 as [|line l' l _ IH|l' l _ IH]; intros HP.
  - constructor.
  - inversion HP; subst. constructor; auto.
  - inversion HP; subst. auto.
Qed.

Lemma thinned_settled l' l : thinned l' l -> settled l -> settled l'.
Proof.
  induction 1 as [|line l' l Ht IH|l' l Ht IH]; simpl; [tauto| |].
  - intros [Hm Hs]. split; [|now apply IH].
    intros H. eapply thinned_Forall; [exact Ht | now apply Hm].
  - intros [_ Hs]. now apply IH.
Qed.

Lemma thinned_refl l : thinned l l.
Proof. induction l; constructor; assumption. Qed.

Lemma thinned_length l' l : thinned l' l -> length l' <= length l.
Proof. induction 1; simpl; lia. Qed.

(** The scanner leaves a settled document behind: what it does not cover
    holds no marker it could still resolve. *)
Lemma scans_settled lines i bs rs :
  scans lines i bs rs ->
  settled (keep_uncovered bs i (skipn i lines)).
Proof.
  induction 1 as [i Hi | i bs rs Hi Hm Hs IH | i bs rs Hi Hm Hj Hs IH
                 | i j e nm bs rs Hi Hm Ej Hj En Ee Hs IH].
  - rewrite skipn_all2 by lia. exact I.
  - rewrite (nth_skipn_cons lines i [] Hi). simpl.
    replace (covered bs i) with false.
    2:{ symmetry. apply covered_false. apply scans_range in Hs.
        eapply Forall_impl; [|exact Hs]. simpl. intros b Hb.
        unfold covers. apply andb_false_iff. rewrite !Nat.leb_gt. lia. }
    simpl. rewrite Hm. split; [discriminate|].
    now replace (S i) with (i + 1) by lia.
  - rewrite (nth_skipn_cons lines i [] Hi). simpl.
    replace (covered bs i) with false.
    2:{ symmetry. apply covered_false. apply scans_range in Hs.
        eapply Forall_impl; [|exact Hs]. simpl. intros b Hb.
        unfold covers. apply andb_false_iff. rewrite !Nat.leb_gt. lia. }
    simpl. replace (S i) with (i + 1) by lia. split; [|exact IH].
    intros _. apply keep_uncovered_Forall.
    apply (skip_to_signature_end _ (i + 1)).
    pose proof (skip_to_signature_le (skipn (i + 1) lines) (i + 1)) as Hle.
    rewrite length_skipn in *. lia.
  - pose proof (skip_to_signature_ge (skipn (i + 1) lines) (i + 1)) as Hge.
    rewrite <- Ej in Hge.
    destruct (find_end_bounds lines j Hj) as [He1 He2].
    rewrite <- Ee in He1, He2.
    set (b := mkBlock i e nm _).
    rewrite <- (firstn_skipn (e + 1 - i) (skipn i lines)).
    rewrite keep_uncovered_app, keep_uncovered_all.
    2:{ intros k Hk. rewrite length_firstn, length_skipn in Hk.
        simpl. unfold covers. simpl.
        replace (i <=? k) with true by (symmetry; apply Nat.leb_le; lia).
        replace (k <=? e) with true by (symmetry; apply Nat.leb_le; lia).
        reflexivity. }
    rewrite skipn_skipn, length_firstn, length_skipn. simpl.
    replace (e + 1 - i + i) with (e + 1) by lia.
    replace (i + Nat.min (e + 1 - i) (length lines - i)) with (e + 1) by lia.
    rewrite (keep_uncovered_ext (b :: bs) bs); [exact IH|].
    intros k Hk. simpl. unfold covers at 1. simpl.
    replace (k <=? e) with false by (symmetry; apply Nat.leb_gt; lia).
    now rewrite andb_false_r.
Qed.

(** On a settled document the loop of the scanner changes nothing. *)
Lemma scan_loop_settled lines fuel : forall i st,
  settled (skipn i lines) -> scan_loop fuel lines i st = st.
Proof.
  induction fuel as [|fuel IH]; intros i st Hs; [reflexivity|].
  destruct (le_lt_dec (length lines) i) as [Hi|Hi].
  - simpl. apply Nat.ltb_ge in Hi. now rewrite Hi.
  - rewrite (nth_skipn_cons lines i [] Hi) in Hs. destruct Hs as [Hm Hs].
    destruct (has_marker (nth i lines [])) eqn:Em.
    + apply scan_loop_trailing. now apply Hm.
    + simpl. apply Nat.ltb_lt in Hi. rewrite Hi, Em. now apply IH.
Qed.

Lemma find_deprecated_state_settled content :
  settled (split_lines content) -> find_deprecated_state content = scan_start.
Proof. intros H. unfold find_deprecated_state. now apply scan_loop_settled. Qed.

(** ** The normalizer *)

Lemma split_lines_cons_nl rest : split_lines (nl :: rest) = [] :: split_lines rest.
Proof. reflexivity. Qed.

Lemma split_lines_cons_other c rest :
  is_nl c = false ->
  exists line more,
    split_lines rest = line :: more /\
    split_lines (c :: rest) = (c :: line) :: more.
Proof.
  intros Hc. simpl. rewrite Hc.
  pose proof (split_lines_not_nil rest) as Hne.
  destruct (split_lines rest) as [|line more]; [congruence|].
  now exists line, more.
Qed.

Lemma same_head_thinned_thinned l' l : same_head_thinned l' l -> thinned l' l.
Proof.
  destruct l' as [|h' t'], l as [|h t]; simpl; try tauto.
  intros [-> H]. now constructor.
Qed.

Lemma sub_newlines_thinned s :
  same_head_thinned (split_lines (sub_newlines s)) (split_lines s) /\
  thinned (split_lines (sub_skip s)) (split_lines s) /\
  (1 <= leading_newlines s ->
   thinned ([] :: split_lines (sub_skip s)) (split_lines s)).
Proof.
  induction s as [|c s (IH1 & IH2 & IH3)].
  - simpl. repeat split; try lia. repeat constructor. repeat constructor.
  - split; [|split].
    + destruct (3 <=? leading_newlines (c :: s)) eqn:H3.
      * apply Nat.leb_le in H3.
        assert (Hc : is_nl c = true).
        { simpl in H3. destruct (is_nl c); [reflexivity | lia]. }
        assert (Hs : 1 <= leading_newlines s).
        { simpl in H3. rewrite Hc in H3. lia. }
        apply is_nl_true in Hc. subst c.
        change (sub_newlines (nl :: s))
          with (if 3 <=? leading_newlines (nl :: s)
                then nl :: nl :: sub_skip s else nl :: sub_newlines s).
        apply Nat.leb_le in H3. rewrite H3.
        rewrite !split_lines_cons_nl. simpl. split; [reflexivity|].
        now apply IH3.
      * change (sub_newlines (c :: s))
          with (if 3 <=? leading_newlines (c :: s)
                then nl :: nl :: sub_skip s else c :: sub_newlines s).
        rewrite H3.
        destruct (is_nl c) eqn:Hc.
        -- apply is_nl_true in Hc. subst c.
           rewrite !split_lines_cons_nl. simpl. split; [reflexivity|].
           now apply same_head_thinned_thinned.
        -- destruct (split_lines_cons_other c s Hc) as (h & t & E1 & E2).
           destruct (split_lines_cons_other c (sub_newlines s) Hc)
             as (h' & t' & E1' & E2').
           rewrite E2, E2'. rewrite E1, E1' in IH1. simpl in *.
           destruct IH1 as [-> Ht]. now split.
    + simpl sub_skip. destruct (is_nl c) eqn:Hc.
      * apply is_nl_true in Hc. subst c. rewrite split_lines_cons_nl.
        now constructor.
      * destruct (split_lines_cons_other c s Hc) as (h & t & E1 & E2).
        destruct (split_lines_cons_other c (sub_newlines s) Hc)
          as (h' & t' & E1' & E2').
        rewrite E2, E2'. rewrite E1, E1' in IH1. simpl in IH1.
        destruct IH1 as [-> Ht]. now constructor.
    + intros H1. simpl in H1. simpl sub_skip.
      destruct (is_nl c) eqn:Hc; [|lia].
      apply is_nl_true in Hc. subst c. rewrite split_lines_cons_nl.
      now constructor.
Qed.

Lemma clean_empty_lines_thinned content :
  same_head_thinned (split_lines (clean_empty_lines content))
    (split_lines content).
Proof. apply sub_newlines_thinned. Qed.

Lemma clean_empty_lines_settled content :
  settled (split_lines content) ->
  settled (split_lines (clean_empty_lines content)).
Proof.
  intros H. eapply thinned_settled; [|exact H].
  apply same_head_thinned_thinned, clean_empty_lines_thinned.
Qed.

(** ** One run of the script *)

Lemma find_deprecated_methods_chain content :
  StronglySorted (fun a b => end_ a < start b) (find_deprecated_methods content).
Proof.
  destruct (find_deprecated_state_scans content) as (rs & Hs & _).
  eapply scans_chain; eassumption.
Qed.

Lemma find_deprecated_methods_range content :
  Forall (fun b => start b < end_ b /\
                   end_ b < length (split_lines content))
    (find_deprecated_methods content).
Proof.
  destruct (find_deprecated_state_scans content) as (rs & Hs & _).
  apply scans_range in Hs. eapply Forall_impl; [|exact Hs].
  simpl. intros b. lia.
Qed.

Lemma find_deprecated_methods_disjoint content :
  pairwise_disjoint (find_deprecated_methods content).
Proof. apply chain_pairwise_disjoint, find_deprecated_methods_chain. Qed.

Lemma forward_pass_settled content :
  settled (forward_pass (split_lines content) (find_deprecated_methods content)).
Proof.
  destruct (find_deprecated_state_scans content) as (rs & Hs & _).
  apply scans_settled in Hs. exact Hs.
Qed.

Lemma pipeline_settled content : settled (split_lines (pipeline content)).
Proof.
  unfold pipeline.
  pose proof (forward_pass_settled content) as Hset.
  pose proof (find_deprecated_methods_disjoint content) as Hdisj.
  apply clean_empty_lines_settled.
  unfold remove_deprecated_blocks.
  rewrite remove_loop_forward by assumption. simpl fst.
  set (kept := forward_pass _ _) in *.
  destruct kept as [|line more] eqn:Ek.
  - simpl. split; [discriminate | exact I].
  - rewrite split_join; [assumption | discriminate |].
    rewrite <- Ek. apply keep_uncovered_Forall, split_lines_no_newline.
Qed.

Lemma main_pipeline content cleaned :
  main content = Some cleaned -> cleaned = pipeline content.
Proof.
  unfold main, pipeline.
  destruct (find_deprecated_methods content); [discriminate|].
  now intros [= <-].
Qed.

Lemma run_settled content : settled (split_lines (run content)).
Proof.
  unfold run. destruct (main content) as [cleaned|] eqn:Emain.
  - rewrite (main_pipeline content cleaned Emain). apply pipeline_settled.
  - unfold main in Emain.
    pose proof (forward_pass_settled content) as Hset.
    destruct (find_deprecated_methods content); [|discriminate].
    now rewrite forward_pass_nil in Hset.
Qed.

(** ** The normalizer, run by run *)

(** What [re.sub] does at a position: a run of three or more newlines is
    replaced and the search goes on after it; otherwise one character is
    copied. *)
Lemma sub_newlines_cons c s :
  sub_newlines (c :: s) =
  if 3 <=? leading_newlines (c :: s) then nl :: nl :: sub_skip s
  else c :: sub_newlines s.
Proof. reflexivity. Qed.

Lemma leading_newlines_skipn s :
  leading_newlines (skipn (leading_newlines s) s) = 0.
Proof.
  induction s as [|c s IH]; simpl; [reflexivity|].
  destruct (is_nl c) eqn:Hc; simpl; [exact IH | now rewrite Hc].
Qed.

Lemma sub_skip_run s :
  sub_skip s = sub_newlines (skipn (leading_newlines s) s).
Proof.
  induction s as [|c s IH]; [reflexivity|].
  simpl sub_skip. simpl leading_newlines.
  destruct (is_nl c) eqn:Hc; [exact IH|].
  simpl skipn. rewrite sub_newlines_cons. simpl. now rewrite Hc.
Qed.

Lemma sub_newlines_match s :
  3 <= leading_newlines s ->
  sub_newlines s = nl :: nl :: sub_newlines (skipn (leading_newlines s) s).
Proof.
  destruct s as [|c s]; simpl leading_newlines; [lia|].
  intros H. rewrite sub_newlines_cons.
  replace (3 <=? leading_newlines (c :: s)) with true
    by (symmetry; apply Nat.leb_le; exact H).
  rewrite sub_skip_run. simpl leading_newlines.
  destruct (is_nl c); [reflexivity | lia].
Qed.

Lemma sub_newlines_copy c s :
  leading_newlines (c :: s) < 3 ->
  sub_newlines (c :: s) = c :: sub_newlines s.
Proof.
  intros H. rewrite sub_newlines_cons.
  now replace (3 <=? leading_newlines (c :: s)) with false
    by (symmetry; apply Nat.leb_gt; exact H).
Qed.

Lemma leading_newlines_sub s :
  leading_newlines (sub_newlines s) =
    (if 3 <=? leading_newlines s then 2 else leading_newlines s) /\
  leading_newlines (sub_skip s) = 0.
Proof.
  induction s as [|c s [IH1 IH2]]; [split; reflexivity|]. split.
  - rewrite sub_newlines_cons.
    destruct (3 <=? leading_newlines (c :: s)) eqn:H3.
    + simpl. now rewrite IH2.
    + apply Nat.leb_gt in H3. simpl leading_newlines in *.
      destruct (is_nl c); [|reflexivity].
      rewrite IH1.
      replace (3 <=? leading_newlines s) with false
        by (symmetry; apply Nat.leb_gt; lia).
      reflexivity.
  - simpl sub_skip. destruct (is_nl c) eqn:Hc; [exact IH2|].
    simpl. now rewrite Hc.
Qed.

(** The output holds no three newlines in a row. *)
Lemma sub_newlines_calm s : calm (sub_newlines s) /\ calm (sub_skip s).
Proof.
  induction s as [|c s [IH1 IH2]]; [simpl; split; split; auto; lia|].
  destruct (leading_newlines_sub s) as [L1 L2].
  split.
  - rewrite sub_newlines_cons.
    destruct (3 <=? leading_newlines (c :: s)) eqn:H3.
    + simpl. rewrite L2.
      repeat split; try lia. exact IH2.
    + split; [|exact IH1].
      apply Nat.leb_gt in H3. simpl leading_newlines in *.
      destruct (is_nl c); [|lia].
      rewrite L1.
      replace (3 <=? leading_newlines s) with false
        by (symmetry; apply Nat.leb_gt; lia).
      lia.
  - simpl sub_skip. destruct (is_nl c) eqn:Hc; [exact IH2|].
    split; [simpl; rewrite Hc; lia | exact IH1].
Qed.

Lemma calm_app_r a b : calm (a ++ b) -> calm b.
Proof.
  induction a as [|c a IH]; [tauto|]. simpl. intros [_ H]. now apply IH.
Qed.

Lemma calm_no_triple pre post : ~ calm (pre ++ nl :: nl :: nl :: post).
Proof.
  intros H. apply calm_app_r in H. destruct H as [H _].
  simpl in H. lia.
Qed.

(** A text without three newlines in a row is left as it is. *)
Lemma sub_newlines_calm_id s : calm s -> sub_newlines s = s.
Proof.
  induction s as [|c s IH]; [reflexivity|].
  intros [Hlead Hrest]. rewrite sub_newlines_copy by exact Hlead.
  simpl in Hrest. now rewrite IH.
Qed.

(** Joining and splitting at a newline. *)
Lemma split_lines_app a b :
  split_lines (a ++ nl :: b) = split_lines a ++ split_lines b.
Proof.
  induction a as [|c a IH]; [reflexivity|].
  simpl. rewrite IH. destruct (is_nl c); [reflexivity|].
  pose proof (split_lines_not_nil a) as Hne.
  destruct (split_lines a); [congruence | reflexivity].
Qed.

Lemma join_lines_app l1 l2 :
  l1 <> [] -> l2 <> [] ->
  join_lines (l1 ++ l2) = join_lines l1 ++ nl :: join_lines l2.
Proof.
  intros H1 H2. induction l1 as [|line l1 IH]; [congruence|].
  destruct l1 as [|line' l1].
  - simpl app. now rewrite join_lines_cons.
  - change ((line :: line' :: l1) ++ l2) with (line :: (line' :: l1) ++ l2).
    rewrite !join_lines_cons by discriminate.
    rewrite IH by discriminate. now rewrite <- app_assoc.
Qed.

Lemma join_lines_empty_lines m rest :
  rest <> [] ->
  join_lines (repeat [] m ++ rest) = repeat nl m ++ join_lines rest.
Proof.
  intros H. induction m as [|m IH]; [reflexivity|].
  simpl repeat. simpl app. rewrite join_lines_cons.
  - simpl. now rewrite IH.
  - destruct m; simpl; [assumption | discriminate].
Qed.

(** A character that is not a newline separates what the normalizer does
    before it from what it does after it. *)
Lemma leading_newlines_app_other a x b :
  is_nl x = false ->
  leading_newlines (a ++ x :: b) = leading_newlines (a ++ [x]).
Proof.
  intros Hx. induction a as [|c a IH]; simpl.
  - now rewrite Hx.
  - now rewrite IH.
Qed.

Lemma sub_newlines_app_other a x b :
  is_nl x = false ->
  sub_newlines (a ++ x :: b) = sub_newlines (a ++ [x]) ++ sub_newlines b /\
  sub_skip (a ++ x :: b) = sub_skip (a ++ [x]) ++ sub_newlines b.
Proof.
  intros Hx. induction a as [|c a [IH1 IH2]].
  - simpl app. rewrite !sub_newlines_cons. simpl. rewrite Hx. simpl.
    now split.
  - split.
    + change ((c :: a) ++ x :: b) with (c :: a ++ x :: b).
      change ((c :: a) ++ [x]) with (c :: a ++ [x]).
      rewrite !sub_newlines_cons.
      change (leading_newlines (c :: a ++ x :: b))
        with (leading_newlines ((c :: a) ++ x :: b)).
      rewrite (leading_newlines_app_other (c :: a) x b Hx).
      change ((c :: a) ++ [x]) with (c :: a ++ [x]).
      destruct (3 <=? leading_newlines (c :: a ++ [x])).
      * now rewrite IH2.
      * now rewrite IH1.
    + simpl. destruct (is_nl c); [exact IH2 | now rewrite IH1].
Qed.

Lemma sub_skip_newlines n y b :
  is_nl y = false ->
  sub_skip (repeat nl n ++ y :: b) = y :: sub_newlines b.
Proof.
  intros Hy. induction n as [|n IH]; simpl.
  - now rewrite Hy.
  - exact IH.
Qed.

Lemma leading_newlines_repeat n y b :
  is_nl y = false -> leading_newlines (repeat nl n ++ y :: b) = n.
Proof.
  intros Hy. induction n as [|n IH]; simpl.
  - now rewrite Hy.
  - now rewrite IH.
Qed.

(** A maximal run of [k] newlines, between two other characters. *)
Lemma sub_newlines_run k y b :
  is_nl y = false ->
  sub_newlines (repeat nl k ++ y :: b) =
  (if 3 <=? k then [nl; nl] else repeat nl k) ++ y :: sub_newlines b.
Proof.
  intros Hy.
  destruct (3 <=? k) eqn:H3.
  - apply Nat.leb_le in H3. destruct k as [|k]; [lia|].
    simpl repeat. simpl app. rewrite sub_newlines_cons.
    change (nl :: repeat nl k ++ y :: b) with (repeat nl (S k) ++ y :: b).
    rewrite (leading_newlines_repeat (S k) y b Hy).
    replace (3 <=? S k) with true by (symmetry; apply Nat.leb_le; lia).
    now rewrite sub_skip_newlines.
  - apply Nat.leb_gt in H3.
    assert (Hcopy : forall n, n < 3 ->
              sub_newlines (repeat nl n ++ y :: b) =
              repeat nl n ++ y :: sub_newlines b).
    { induction n as [|n IH]; intros Hn.
      - simpl repeat. simpl app. rewrite sub_newlines_copy; [reflexivity|].
        simpl. rewrite Hy. lia.
      - simpl repeat. simpl app. rewrite sub_newlines_copy.
        + rewrite IH by lia. reflexivity.
        + change (nl :: repeat nl n ++ y :: b)
            with (repeat nl (S n) ++ y :: b).
          now rewrite leading_newlines_repeat. }
    now apply Hcopy.
Qed.

Lemma clean_empty_lines_run a x k y b :
  is_nl x = false -> is_nl y = false ->
  clean_empty_lines (a ++ x :: repeat nl k ++ y :: b) =
  clean_empty_lines (a ++ [x])
  ++ (if 3 <=? k then [nl; nl] else repeat nl k)
  ++ clean_empty_lines (y :: b).
Proof.
  intros Hx Hy. unfold clean_empty_lines.
  destruct (sub_newlines_app_other a x (repeat nl k ++ y :: b) Hx) as [-> _].
  rewrite (sub_newlines_run k y b Hy).
  rewrite (sub_newlines_copy y b) by (simpl; rewrite Hy; lia).
  reflexivity.
Qed.

(** ** The normalizer, line by line *)

Lemma nth_pair_split {A : Type} (l : list A) k d :
  k + 1 < length l ->
  l = firstn k l ++ nth k l d :: nth (k + 1) l d :: skipn (k + 2) l.
Proof.
  intros H. rewrite <- (firstn_skipn k l) at 1. f_equal.
  rewrite (nth_skipn_cons l k d) by lia. f_equal.
  rewrite (nth_skipn_cons l (k + 1) d) by lia.
  now replace (k + 1 + 1) with (k + 2) by lia.
Qed.

(** In a text without three newlines in a row, two empty lines in a row can
    only sit at the very beginning or at the very end. *)
Lemma calm_no_inner_pair s k :
  calm s ->
  1 <= k -> k + 2 < length (split_lines s) ->
  nth k (split_lines s) [] = [] -> nth (k + 1) (split_lines s) [] = [] ->
  False.
Proof.
  intros Hcalm Hk Hlen E1 E2.
  pose proof (nth_pair_split (split_lines s) k [] ltac:(lia)) as Hsplit.
  rewrite E1, E2 in Hsplit.
  pose proof (join_split s) as Hjoin. rewrite Hsplit in Hjoin.
  assert (Hpre : firstn k (split_lines s) <> []).
  { intros E. apply (f_equal (@length _)) in E.
    rewrite length_firstn in E. simpl in E. lia. }
  assert (Hpost : skipn (k + 2) (split_lines s) <> []).
  { intros E. apply (f_equal (@length _)) in E.
    rewrite length_skipn in E. simpl in E. lia. }
  rewrite join_lines_app in Hjoin by (assumption || discriminate).
  change ([] :: [] :: skipn (k + 2) (split_lines s))
    with (repeat [] 2 ++ skipn (k + 2) (split_lines s)) in Hjoin.
  rewrite (join_lines_empty_lines 2 _ Hpost) in Hjoin. simpl in Hjoin.
  rewrite <- Hjoin in Hcalm. now apply calm_no_triple in Hcalm.
Qed.

Lemma join_lines_last before p x :
  join_lines (before ++ [p ++ [x]]) = join_lines (before ++ [p]) ++ [x].
Proof.
  destruct before as [|l before]; [reflexivity|].
  rewrite !join_lines_app by discriminate.
  simpl. now rewrite <- app_assoc.
Qed.

Lemma join_lines_first y q after :
  join_lines ((y :: q) :: after) = y :: join_lines (q :: after).
Proof. now destruct after. Qed.

(** Two or more empty lines between two lines that are not empty become
    exactly one; the text before and the text after are normalized on their
    own. *)
Lemma clean_empty_lines_inner_run before p m q after :
  p <> [] -> q <> [] -> no_newline p -> no_newline q -> 2 <= m ->
  split_lines
    (clean_empty_lines
       (join_lines (before ++ p :: repeat [] m ++ q :: after))) =
  split_lines (clean_empty_lines (join_lines (before ++ [p])))
  ++ [] :: split_lines (clean_empty_lines (join_lines (q :: after))).
Proof.
  intros Hp Hq Hnp Hnq Hm.
  destruct (exists_last Hp) as (p' & x & ->).
  destruct q as [|y q']; [congruence|].
  assert (Hx : is_nl x = false).
  { apply is_nl_false. intros ->. apply Hnp, in_or_app. right. now left. }
  assert (Hy : is_nl y = false).
  { apply is_nl_false. intros ->. apply Hnq. now left. }
  change (before ++ (p' ++ [x]) :: repeat [] m ++ (y :: q') :: after)
    with (before ++ [p' ++ [x]] ++ (repeat [] m ++ (y :: q') :: after)).
  rewrite app_assoc, join_lines_app.
  2:{ destruct before; discriminate. }
  2:{ destruct m; discriminate. }
  rewrite join_lines_empty_lines by discriminate.
  rewrite join_lines_last, join_lines_first, <- app_assoc.
  change ([x] ++ nl :: repeat nl m ++ y :: join_lines (q' :: after))
    with (x :: repeat nl (S m) ++ y :: join_lines (q' :: after)).
  rewrite clean_empty_lines_run by assumption.
  replace (3 <=? S m) with true by (symmetry; apply Nat.leb_le; lia).
  change ([nl; nl] ++ clean_empty_lines (y :: join_lines (q' :: after)))
    with (nl :: nl :: clean_empty_lines (y :: join_lines (q' :: after))).
  now rewrite split_lines_app, split_lines_cons_nl.
Qed.

(** ** More on one run *)

Lemma chain_In (R : block -> block -> Prop) bs a b :
  StronglySorted R bs -> In a bs -> In b bs -> a = b \/ R a b \/ R b a.
Proof.
  induction 1 as [|c bs Hs IH Hc]; intros Ha Hb; [destruct Ha|].
  rewrite Forall_forall in Hc.
  destruct Ha as [->|Ha], Hb as [->|Hb]; auto.
Qed.

(** When the script writes, the file loses lines. *)
Lemma main_shrinks content cleaned :
  main content = Some cleaned ->
  length (split_lines cleaned) < length (split_lines content).
Proof.
  unfold main.
  pose proof (find_deprecated_methods_range content) as Hrange.
  pose proof (find_deprecated_methods_disjoint content) as Hdisj.
  destruct (find_deprecated_methods content) as [|b bs] eqn:E; [discriminate|].
  intros [= <-].
  inversion Hrange as [|? ? [Hb1 Hb2] _]; subst.
  set (lines := split_lines content) in *.
  assert (Hkept : length (forward_pass lines (b :: bs)) < length lines).
  { pose proof (remove_loop_forward lines (b :: bs) Hdisj) as Hfw.
    apply (f_equal fst) in Hfw. simpl fst in Hfw. rewrite <- Hfw.
    unfold remove_loop. apply (remove_fold_shrinks b); [|lia|lia].
    eapply Permutation_in; [symmetry; apply sorted_reverse_perm | now left]. }
  unfold remove_deprecated_blocks. fold lines.
  rewrite remove_loop_forward by assumption. simpl fst.
  pose proof (clean_empty_lines_thinned
                (join_lines (forward_pass lines (b :: bs)))) as Hthin.
  apply same_head_thinned_thinned, thinned_length in Hthin.
  destruct (forward_pass lines (b :: bs)) as [|line more] eqn:Ek.
  - simpl in *. lia.
  - rewrite split_join in Hthin; [lia | discriminate |].
    rewrite <- Ek. apply keep_uncovered_Forall, split_lines_no_newline.
Qed.

(* ================================================================== *)
(** * Part IV. The claims of the specification                         *)
(* ================================================================== *)

(** ** The scanner *)

(** C7.  Once the block of a marker on line [i] is resolved, the loop goes on
    at the line after the end of that block; and for every document the
    blocks the scanner returns are strictly ascending by [start], each one
    ends before the next one starts, they are pairwise disjoint, and no line
    inside a returned block is the start of another returned block. *)
Theorem scanner_blocks_ascending_disjoint content :
  let blocks := find_deprecated_methods content in
  (forall lines fuel i st j end_line,
      i < length lines ->
      has_marker (nth i lines []) = true ->
      j = skip_to_signature (skipn (i + 1) lines) (i + 1) ->
      j < length lines ->
      end_line = find_end (skipn j lines) j 0%Z false j ->
      i < end_line /\
      scan_loop (S fuel) lines i st =
        scan_loop fuel lines (end_line + 1)
          (found st i end_line (extract_method_name (strip (nth j lines []))))) /\
  StronglySorted (fun a b => start a < start b) blocks /\
  StronglySorted (fun a b => end_ a < start b) blocks /\
  pairwise_disjoint blocks /\
  (forall a b, In a blocks -> In b blocks ->
               start a < start b -> end_ a < start b).
Proof.
  intros blocks.
  pose proof (find_deprecated_methods_chain content) as Hchain.
  pose proof (find_deprecated_methods_range content) as Hrange.
  fold blocks in Hchain, Hrange.
  assert (Hwf : Forall (fun b => start b <= end_ b) blocks).
  { eapply Forall_impl; [|exact Hrange]. simpl. intros b. lia. }
  split; [|split; [|split; [|split]]].
  - intros lines fuel i st j e Hi Hm Ej Hj Ee. split.
    + pose proof (skip_to_signature_ge (skipn (i + 1) lines) (i + 1)) as Hge.
      rewrite <- Ej in Hge.
      destruct (find_end_bounds lines j Hj) as [He _].
      rewrite <- Ee in He. lia.
    + now apply scan_loop_block.
  - now apply chain_ascending.
  - exact Hchain.
  - now apply chain_pairwise_disjoint.
  - intros a b Ha Hb Hab.
    rewrite Forall_forall in Hwf.
    pose proof (Hwf a Ha) as Hwa. pose proof (Hwf b Hb) as Hwb.
    destruct (chain_In _ blocks a b Hchain Ha Hb) as [->|[Hlt|Hlt]]; lia.
Qed.

Lemma scanner_blocks_ascending_disjoint_witness :
  scan_loop 8 (split_lines doc_scenario) 2 scan_start =
    scan_loop 7 (split_lines doc_scenario) 6
      (found scan_start 2 5 (lit "a")) /\
  pairwise_disjoint (find_deprecated_methods doc_scenario).
Proof.
  pose proof (scanner_blocks_ascending_disjoint doc_scenario) as H.
  cbv zeta in H. destruct H as (Hstep & _ & _ & Hdisj & _).
  split; [|exact Hdisj].
  apply (Hstep (split_lines doc_scenario) 7 2 scan_start 3 5);
    try reflexivity; vm_compute; lia.
Defined.

(** C6, amended.  A marker line after which only blank lines and comments
    remain is stepped over: the loop goes on at the next line with the same
    blocks and the same output, so it prints nothing about that marker, and
    from there to the end of the document nothing is added.  No returned
    block starts on that line and no printed report begins with it. *)
Theorem trailing_marker_skipped_silently content i :
  let lines := split_lines content in
  i < length lines ->
  has_marker (nth i lines []) = true ->
  Forall (fun l => blank_or_comment l = true) (skipn (i + 1) lines) ->
  (forall fuel st,
      scan_loop (S fuel) lines i st = scan_loop fuel lines (i + 1) st /\
      scan_loop fuel lines (i + 1) st = st) /\
  (forall b, In b (find_deprecated_methods content) -> start b <> i) /\
  (forall r, In r (printed (find_deprecated_state content)) ->
             r_first r <> i + 1).
Proof.
  intros lines Hi Hm Hall.
  assert (Hj : skip_to_signature (skipn (i + 1) lines) (i + 1) = length lines).
  { rewrite skip_to_signature_all by assumption. rewrite length_skipn. lia. }
  destruct (find_deprecated_state_scans content) as (rs & Hs & Hrs).
  fold lines in Hs.
  assert (Hstart : forall b, In b (find_deprecated_methods content) ->
                             start b <> i).
  { intros b Hb E. apply scans_starts in Hs.
    rewrite Forall_forall in Hs. destruct (Hs b Hb) as [_ Hlt].
    rewrite E, Hj in Hlt. lia. }
  split; [|split].
  - intros fuel st. split.
    + apply scan_loop_discard; [assumption | assumption | lia].
    + destruct fuel as [|fuel]; [reflexivity|].
      destruct (le_lt_dec (length lines) (i + 1)) as [Hl|Hl].
      * simpl. apply Nat.ltb_ge in Hl. now rewrite Hl.
      * apply scan_loop_trailing.
        rewrite (nth_skipn_cons lines (i + 1) [] Hl) in Hall.
        now inversion Hall.
  - exact Hstart.
  - intros r Hr. rewrite Hrs, (scans_reports _ _ _ _ Hs) in Hr.
    apply in_map_iff in Hr. destruct Hr as (b & <- & Hb). simpl.
    specialize (Hstart b Hb). lia.
Qed.

Lemma trailing_marker_skipped_silently_witness :
  scan_loop 2 (split_lines doc_trailing_marker) 1 scan_start = scan_start /\
  (forall b, In b (find_deprecated_methods doc_trailing_marker) ->
             start b <> 1).
Proof.
  assert (H1 : 1 < length (split_lines doc_trailing_marker))
    by (vm_compute; lia).
  assert (H2 : has_marker (nth 1 (split_lines doc_trailing_marker) []) = true)
    by reflexivity.
  assert (H3 : Forall (fun l => blank_or_comment l = true)
                 (skipn (1 + 1) (split_lines doc_trailing_marker))).
  { apply (Forall_check _ (fun l => blank_or_comment l)); [auto | reflexivity]. }
  destruct (trailing_marker_skipped_silently doc_trailing_marker 1 H1 H2 H3)
    as (Hstep & Hstart & _).
  split; [|exact Hstart].
  destruct (Hstep 1 scan_start) as [E1 E2]. now rewrite E1.
Defined.

(** C6, as stated, fails: the marker on the second line of
    [doc_trailing_marker] has only a comment after it, and the scanner
    returns no block and prints no report at all, so the marker is dropped
    without being reported. *)
Lemma trailing_marker_not_reported :
  has_marker (nth 1 (split_lines doc_trailing_marker) []) = true /\
  forallb blank_or_comment (skipn 2 (split_lines doc_trailing_marker)) = true /\
  find_deprecated_methods doc_trailing_marker = [] /\
  ~ (exists r, In r (printed (find_deprecated_state doc_trailing_marker))).
Proof.
  repeat split; try reflexivity. intros [r Hr]. vm_compute in Hr. exact Hr.
Qed.

(** C1, amended.  When the declaration after a marker is followed, to the end
    of the document, by no line that holds an opening brace, nothing fails:
    the loop appends the block that runs from the marker line to the
    declaration line and goes on at the line after the declaration.  When the
    marker is the first one of the document, that block is the first one
    returned, and the script goes on to delete it and to write a file with
    fewer lines. *)
Theorem unopened_body_ends_at_declaration content i :
  let lines := split_lines content in
  let j := skip_to_signature (skipn (i + 1) lines) (i + 1) in
  let method_name := extract_method_name (strip (nth j lines [])) in
  i < length lines ->
  has_marker (nth i lines []) = true ->
  j < length lines ->
  Forall (fun line => ~ In open_brace line) (skipn j lines) ->
  (forall fuel st,
      scan_loop (S fuel) lines i st =
        scan_loop fuel lines (j + 1) (found st i j method_name)) /\
  ((forall k, k < i -> has_marker (nth k lines []) = false) ->
   exists rest cleaned,
     find_deprecated_methods content =
       mkBlock i j method_name (Z.of_nat j - Z.of_nat i + 1) :: rest /\
     main content = Some cleaned /\
     length (split_lines cleaned) < length lines).
Proof.
  intros lines j method_name Hi Hm Hj Hopen.
  assert (Hend : find_end (skipn j lines) j 0%Z false j = j)
    by now apply find_end_no_open.
  assert (Hstep : forall fuel st,
             scan_loop (S fuel) lines i st =
             scan_loop fuel lines (j + 1) (found st i j method_name)).
  { intros fuel st.
    now rewrite (scan_loop_block lines fuel i st j j). }
  split; [exact Hstep|].
  intros Hfirst.
  assert (Hfind : exists rest,
             find_deprecated_methods content =
             mkBlock i j method_name (Z.of_nat j - Z.of_nat i + 1) :: rest).
  { unfold find_deprecated_methods, find_deprecated_state. fold lines.
    rewrite (scan_loop_fuel lines (length lines)
               (i + S (length lines - i - 1)) 0 scan_start) by lia.
    rewrite (scan_loop_plain lines i _ 0 scan_start);
      [|lia | intros k Hk; apply Hfirst; lia].
    simpl (0 + i). rewrite Hstep.
    pose proof (skip_to_signature_ge (skipn (i + 1) lines) (i + 1)) as Hge.
    fold j in Hge.
    destruct (scan_loop_scans lines (length lines - i - 1) (j + 1)
                (found scan_start i j method_name))
      as (bs & rs & _ & ->); [lia|].
    simpl. now exists bs. }
  destruct Hfind as [rest Hfind]. exists rest.
  destruct (main content) as [cleaned|] eqn:Emain.
  - exists cleaned. repeat split; try assumption.
    now apply main_shrinks.
  - unfold main in Emain. rewrite Hfind in Emain. discriminate.
Qed.

Lemma unopened_body_ends_at_declaration_witness :
  exists rest cleaned,
    find_deprecated_methods doc_unopened =
      mkBlock 2 3 (lit "a") 2 :: rest /\
    main doc_unopened = Some cleaned /\
    length (split_lines cleaned) < 5.
Proof.
  assert (H1 : 2 < length (split_lines doc_unopened)) by (vm_compute; lia).
  assert (H2 : has_marker (nth 2 (split_lines doc_unopened) []) = true)
    by reflexivity.
  assert (H3 : skip_to_signature (skipn (2 + 1) (split_lines doc_unopened))
                 (2 + 1) < length (split_lines doc_unopened))
    by (vm_compute; lia).
  assert (H4 : Forall (fun line => ~ In open_brace line)
                 (skipn (skip_to_signature
                           (skipn (2 + 1) (split_lines doc_unopened)) (2 + 1))
                    (split_lines doc_unopened))).
  { apply (Forall_check _
             (fun s => forallb (fun x => negb (Ascii.eqb x open_brace)) s));
      [apply not_In_check | reflexivity]. }
  destruct (unopened_body_ends_at_declaration doc_unopened 2 H1 H2 H3 H4)
    as [_ H].
  apply H. intros k Hk.
  destruct k as [|[|k]]; [reflexivity | reflexivity | lia].
Defined.

(** C1, as stated, fails: in [doc_unopened] the declaration [func a()] after
    the marker on the third line never opens a body, and the scanner returns
    a block that ends on the declaration line; the script then deletes both
    lines and writes the file. *)
Lemma unopened_body_not_rejected :
  forallb (fun line => negb (existsb (Ascii.eqb open_brace) line))
    (skipn 3 (split_lines doc_unopened)) = true /\
  find_deprecated_methods doc_unopened = [mkBlock 2 3 (lit "a") 2] /\
  main doc_unopened = Some (join_lines [lit "import X"; []; lit "let y = 2"]) /\
  run doc_unopened <> doc_unopened.
Proof.
  repeat split; try reflexivity. vm_compute. discriminate.
Qed.

(** C9.  Ten lines: any two lines without a marker, a marker line,
    [func a() {], [  x = 1], [}], and any four lines without a marker.  The
    scanner returns one block, from the third line to the sixth (indices 2
    and 5, printed as lines 3-6), named [a], of 4 lines; after the removal
    the document is the six other lines. *)
Theorem scenario_one_block l1 l2 m l7 l8 l9 l10 :
  Forall no_newline [l1; l2; m; l7; l8; l9; l10] ->
  has_marker m = true ->
  Forall (fun l => has_marker l = false) [l1; l2; l7; l8; l9; l10] ->
  let content :=
    join_lines [l1; l2; m; lit "func a() {"; lit "  x = 1"; lit "}";
                l7; l8; l9; l10] in
  let removed :=
    remove_deprecated_blocks content (find_deprecated_methods content) in
  length (split_lines content) = 10 /\
  find_deprecated_methods content = [mkBlock 2 5 (lit "a") 4] /\
  printed (find_deprecated_state content) = [mkReport (lit "a") 3 6 4] /\
  split_lines removed = [l1; l2; l7; l8; l9; l10] /\
  length (split_lines removed) = 6.
Proof.
  intros Hnl Hm Hplain content removed.
  set (lines := [l1; l2; m; lit "func a() {"; lit "  x = 1"; lit "}";
                 l7; l8; l9; l10]).
  assert (Hlines : split_lines content = lines).
  { apply split_join; [discriminate|].
    repeat match goal with H : Forall _ (_ :: _) |- _ =>
             inversion H; subst; clear H end.
    repeat (constructor; [first [assumption | apply not_In_check; reflexivity]|]).
    constructor. }
  repeat match goal with H : Forall _ (_ :: _) |- _ =>
           inversion H; subst; clear H end.
  assert (Hlen : length lines = 10) by reflexivity.
  assert (Hstate : find_deprecated_state content =
                   found scan_start 2 5 (lit "a")).
  { unfold find_deprecated_state. rewrite Hlines, Hlen.
    change 10 with (2 + 8).
    rewrite (scan_loop_plain lines 2 8 0 scan_start).
    2:{ rewrite Hlen. lia. }
    2:{ intros k Hk. destruct k as [|[|k]]; [assumption | assumption | lia]. }
    rewrite (scan_loop_block lines 7 (0 + 2) scan_start 3 5).
    2:{ rewrite Hlen. lia. }
    2:{ assumption. }
    2:{ reflexivity. }
    2:{ rewrite Hlen. lia. }
    2:{ reflexivity. }
    change (extract_method_name (strip (nth 3 lines []))) with (lit "a").
    change 7 with (4 + 3).
    rewrite (scan_loop_plain lines 4 3 (5 + 1)).
    2:{ rewrite Hlen. lia. }
    2:{ intros k Hk.
        destruct k as [|[|[|[|[|[|[|[|[|[|k]]]]]]]]]]; try lia; assumption. }
    unfold scan_loop. rewrite Hlen. reflexivity. }
  assert (Hblocks : find_deprecated_methods content =
                    [mkBlock 2 5 (lit "a") 4]).
  { unfold find_deprecated_methods. now rewrite Hstate. }
  assert (Hremoved : split_lines removed = [l1; l2; l7; l8; l9; l10]).
  { unfold removed, remove_deprecated_blocks. rewrite Hblocks, Hlines.
    change (fst (remove_loop lines [mkBlock 2 5 (lit "a") 4]))
      with [l1; l2; l7; l8; l9; l10].
    apply split_join; [discriminate|].
    repeat (constructor; [assumption|]). constructor. }
  split; [now rewrite Hlines|].
  split; [exact Hblocks|].
  split; [now rewrite Hstate|].
  split; [exact Hremoved | now rewrite Hremoved].
Qed.

Lemma scenario_one_block_witness :
  find_deprecated_methods doc_scenario = [mkBlock 2 5 (lit "a") 4] /\
  length (split_lines
            (remove_deprecated_blocks doc_scenario
               (find_deprecated_methods doc_scenario))) = 6.
Proof.
  assert (H1 : Forall no_newline
                 [lit "import Foundation"; lit "class A {"; annotation;
                  lit "func b() {"; lit "  y = 2"; lit "}"; lit "}"]).
  { apply (Forall_check _ (fun s => forallb (fun x => negb (Ascii.eqb x nl)) s));
      [apply not_In_check | reflexivity]. }
  assert (H2 : has_marker annotation = true) by reflexivity.
  assert (H3 : Forall (fun l => has_marker l = false)
                 [lit "import Foundation"; lit "class A {";
                  lit "func b() {"; lit "  y = 2"; lit "}"; lit "}"]).
  { apply (Forall_check _ (fun l => negb (has_marker l)));
      [intros x; now destruct (has_marker x) | reflexivity]. }
  destruct (scenario_one_block _ _ _ _ _ _ _ H1 H2 H3)
    as (_ & Hb & _ & _ & Hl).
  split; [exact Hb | exact Hl].
Defined.

(** ** The executor *)

(** C8.  For pairwise disjoint blocks, deleting the slices in descending
    order of [start] gives the document that one forward pass gives when it
    copies the lines that no block covers. *)
Theorem reverse_deletion_is_forward_pass content blocks :
  pairwise_disjoint blocks ->
  fst (remove_loop (split_lines content) blocks) =
    forward_pass (split_lines content) blocks /\
  remove_deprecated_blocks content blocks =
    join_lines (forward_pass (split_lines content) blocks).
Proof.
  intros Hdisj. unfold remove_deprecated_blocks.
  now rewrite remove_loop_forward.
Qed.

Lemma blocks_apart_disjoint : pairwise_disjoint blocks_apart.
Proof.
  unfold blocks_apart, pairwise_disjoint.
  constructor; [|constructor; [constructor | constructor]].
  constructor; [|constructor]. left. simpl. lia.
Defined.

Lemma reverse_deletion_is_forward_pass_witness :
  remove_deprecated_blocks doc_six blocks_apart =
    join_lines (forward_pass (split_lines doc_six) blocks_apart).
Proof.
  apply (reverse_deletion_is_forward_pass doc_six blocks_apart).
  exact blocks_apart_disjoint.
Defined.

(** C5.  For pairwise disjoint blocks that lie in the document, the number of
    lines before the loop of the executor, minus the total it accumulates
    (the sum of [end - start + 1] over the blocks), is the number of lines
    after the loop, before they are joined and normalized. *)
Theorem removal_conserves_lines content blocks :
  let lines := split_lines content in
  pairwise_disjoint blocks ->
  Forall (resolved_in (length lines)) blocks ->
  let total_lines_removed := snd (remove_loop lines blocks) in
  let lines_after := fst (remove_loop lines blocks) in
  total_lines_removed = total_removed blocks /\
  (Z.of_nat (length lines) - total_lines_removed =
   Z.of_nat (length lines_after))%Z.
Proof.
  intros lines Hdisj Hres total lines_after.
  unfold total, lines_after.
  rewrite remove_loop_total, remove_loop_length by assumption.
  split; [reflexivity | lia].
Qed.

Lemma removal_conserves_lines_witness :
  (Z.of_nat (length (split_lines doc_six))
   - snd (remove_loop (split_lines doc_six) blocks_apart) =
   Z.of_nat (length (fst (remove_loop (split_lines doc_six) blocks_apart))))%Z.
Proof.
  apply (removal_conserves_lines doc_six blocks_apart).
  - exact blocks_apart_disjoint.
  - unfold blocks_apart, resolved_in. repeat constructor; vm_compute; lia.
Defined.

(** The same count for the blocks the scanner itself returns, on any
    document. *)
Corollary scanner_blocks_conserve_lines content :
  let lines := split_lines content in
  let blocks := find_deprecated_methods content in
  (Z.of_nat (length lines) - snd (remove_loop lines blocks) =
   Z.of_nat (length (fst (remove_loop lines blocks))))%Z.
Proof.
  intros lines blocks.
  rewrite remove_loop_total, remove_loop_length; [lia | |].
  - apply find_deprecated_methods_disjoint.
  - eapply Forall_impl; [|apply find_deprecated_methods_range].
    unfold resolved_in. simpl. intros b. fold lines. lia.
Qed.

(** C3, amended.  The executor checks nothing and cannot fail: for any list
    of blocks, intersecting or not, it deletes one slice per block and adds
    the size of every block to its total.  As soon as one of the blocks is
    not empty and starts inside the document, lines are lost. *)
Theorem executor_deletes_unchecked content blocks b :
  let lines := split_lines content in
  In b blocks -> start b <= end_ b -> start b < length lines ->
  length (fst (remove_loop lines blocks)) < length lines /\
  snd (remove_loop lines blocks) = total_removed blocks.
Proof.
  intros lines Hin Hse Hs. split; [|apply remove_loop_total].
  unfold remove_loop. apply (remove_fold_shrinks b); try assumption.
  eapply Permutation_in; [symmetry; apply sorted_reverse_perm | exact Hin].
Qed.

Lemma executor_deletes_unchecked_witness :
  length (fst (remove_loop (split_lines doc_six) blocks_overlapping))
    < length (split_lines doc_six).
Proof.
  apply (executor_deletes_unchecked doc_six blocks_overlapping
           (mkBlock 1 3 (lit "x") 3)).
  - now left.
  - simpl. lia.
  - vm_compute. lia.
Defined.

(** C3, as stated, fails: the two blocks of [blocks_overlapping] share the
    lines 2 and 3 of [doc_six], and the executor, given both, returns a
    document: it has deleted five of the six lines, the last of which no
    block covers. *)
Lemma overlapping_blocks_not_rejected :
  ~ pairwise_disjoint blocks_overlapping /\
  covered blocks_overlapping 5 = false /\
  remove_deprecated_blocks doc_six blocks_overlapping = lit "a" /\
  remove_deprecated_blocks doc_six blocks_overlapping <> doc_six.
Proof.
  split; [|split; [reflexivity | split; [reflexivity | discriminate]]].
  intros H. inversion H as [|? ? Hb _]; subst.
  inversion Hb as [|? ? Hd _]; subst.
  unfold disjoint in Hd. simpl in Hd. lia.
Qed.

(** ** The whole run *)

(** C4.  The output of one pass of scan, remove and normalize is a fixed
    point: the scanner finds no block in it, and a second pass gives the same
    text.  The same holds of the file that one run of the script leaves: the
    scanner finds no block in it and prints nothing, so a second run stops
    before removing anything, does not write, and the text stays as it
    is. *)
Theorem run_is_fixed_point content :
  (find_deprecated_methods (pipeline content) = [] /\
   remove_deprecated_blocks (pipeline content)
     (find_deprecated_methods (pipeline content)) = pipeline content /\
   pipeline (pipeline content) = pipeline content) /\
  (find_deprecated_methods (run content) = [] /\
   printed (find_deprecated_state (run content)) = [] /\
   main (run content) = None /\
   run (run content) = run content).
Proof.
  split.
  - pose proof (find_deprecated_state_settled (pipeline content)
                  (pipeline_settled content)) as H.
    assert (Hfind : find_deprecated_methods (pipeline content) = []).
    { unfold find_deprecated_methods. now rewrite H. }
    assert (Hrem : remove_deprecated_blocks (pipeline content) [] =
                   pipeline content).
    { unfold remove_deprecated_blocks, remove_loop. simpl.
      apply join_split. }
    split; [exact Hfind|]. rewrite Hfind. split; [exact Hrem|].
    unfold pipeline at 1. rewrite Hfind, Hrem.
    unfold clean_empty_lines. apply sub_newlines_calm_id.
    unfold pipeline, clean_empty_lines. apply sub_newlines_calm.
  - pose proof (find_deprecated_state_settled (run content)
                  (run_settled content)) as H.
    assert (Hfind : find_deprecated_methods (run content) = []).
    { unfold find_deprecated_methods. now rewrite H. }
    assert (Hmain : main (run content) = None).
    { unfold main. now rewrite Hfind. }
    split; [exact Hfind|]. split; [now rewrite H|].
    split; [exact Hmain|].
    unfold run at 1. now rewrite Hmain.
Qed.

(** ** The normalizer *)

(** C2: what the script does on [doc_two_blank], a text in which two empty
    lines stand between two other lines.  The specification (every run of
    three or more empty lines becomes two, shorter runs stay) keeps both; the
    script keeps one. *)
Theorem two_blank_lines_become_one :
  split_lines doc_two_blank = [lit "a"; []; []; lit "b"] /\
  collapse_blank_runs 3 2 (split_lines doc_two_blank) =
    [lit "a"; []; []; lit "b"] /\
  split_lines (clean_empty_lines doc_two_blank) = [lit "a"; []; lit "b"].
Proof. repeat split. Qed.

(** C10, amended.  The output of the normalizer never holds three newlines in
    a row, so two empty lines in a row can only be the first two or the last
    two lines of the output; and a run of two or more empty lines between two
    lines that are not empty becomes exactly one empty line, the text on
    either side being normalized on its own. *)
Theorem normalizer_inner_runs content :
  (forall k,
      1 <= k -> k + 2 < length (split_lines (clean_empty_lines content)) ->
      nth k (split_lines (clean_empty_lines content)) [] = [] ->
      nth (k + 1) (split_lines (clean_empty_lines content)) [] = [] ->
      False) /\
  (forall before p m q after,
      content = join_lines (before ++ p :: repeat [] m ++ q :: after) ->
      p <> [] -> q <> [] -> no_newline p -> no_newline q -> 2 <= m ->
      split_lines (clean_empty_lines content) =
        split_lines (clean_empty_lines (join_lines (before ++ [p])))
        ++ [] :: split_lines (clean_empty_lines (join_lines (q :: after)))).
Proof.
  split.
  - intros k. apply calm_no_inner_pair. apply sub_newlines_calm.
  - intros before p m q after -> Hp Hq Hnp Hnq Hm.
    now apply clean_empty_lines_inner_run.
Qed.

Lemma normalizer_inner_runs_witness :
  split_lines (clean_empty_lines doc_inner_blank) =
    split_lines (clean_empty_lines (join_lines [lit "a"; lit "p"]))
    ++ [] :: split_lines (clean_empty_lines (join_lines [lit "q"; lit "z"])).
Proof.
  apply (proj2 (normalizer_inner_runs doc_inner_blank)
           [lit "a"] (lit "p") 3 (lit "q") [lit "z"]).
  - reflexivity.
  - discriminate.
  - discriminate.
  - apply not_In_check. reflexivity.
  - apply not_In_check. reflexivity.
  - lia.
Defined.

(** C10, as stated, fails: [doc_leading_blank] begins with three empty
    lines, and the output begins with two empty lines in a row, where one was
    claimed. *)
Lemma leading_blank_lines_stay_two :
  split_lines doc_leading_blank = [[]; []; []; lit "b"] /\
  collapse_blank_runs 2 1 (split_lines doc_leading_blank) = [[]; lit "b"] /\
  split_lines (clean_empty_lines doc_leading_blank) = [[]; []; lit "b"] /\
  split_lines (clean_empty_lines doc_leading_blank) <>
    collapse_blank_runs 2 1 (split_lines doc_leading_blank).
Proof. repeat split. discriminate. Qed.

(* ================================================================== *)
(** * Part V. Further properties of the script                         *)
(* ================================================================== *)

(** ** What a returned block is *)

(** The lines the search for the declaration steps over are blank lines and
    comments. *)
Lemma skip_to_signature_skipped rest : forall j k,
  j <= k -> k < skip_to_signature rest j ->
  blank_or_comment (nth (k - j) rest []) = true.
Proof.
  induction rest as [|line rest IH]; intros j k Hjk Hk; simpl in *; [lia|].
  destruct (blank_or_comment line) eqn:Hb; [|lia].
  destruct (Nat.eq_dec k j) as [->|Hne].
  - now rewrite Nat.sub_diag.
  - replace (k - j) with (S (k - S j)) by lia. apply IH; [lia | assumption].
Qed.

Lemma scans_resolved lines i bs rs :
  scans lines i bs rs ->
  Forall (fun b =>
            has_marker (nth (start b) lines []) = true /\
            signature_line lines (start b) < length lines /\
            end_ b = find_end (skipn (signature_line lines (start b)) lines)
                       (signature_line lines (start b)) 0%Z false
                       (signature_line lines (start b)) /\
            name b = extract_method_name
                       (strip (nth (signature_line lines (start b)) lines [])) /\
            n_lines b = (Z.of_nat (end_ b) - Z.of_nat (start b) + 1)%Z) bs.
Proof.
  induction 1 as [i Hi | i bs rs Hi Hm _ IH | i bs rs Hi Hm Hj _ IH
                 | i j e nm bs rs Hi Hm Ej Hj En Ee Hs IH];
    try assumption; [constructor|].
  constructor; [|assumption]. unfold signature_line. simpl.
  rewrite <- Ej. repeat split; assumption.
Qed.

(** X1.  Every block the scanner returns starts on a marker line; its
    declaration line is the first line after the marker that is neither
    blank nor a comment; the block ends on or after the declaration line and
    inside the document, at the line the brace count gives; its name is the
    one extracted from the declaration line and its line count is
    [end - start + 1], which is at least 2. *)
Theorem returned_block_is_resolved content b :
  let lines := split_lines content in
  let j := signature_line lines (start b) in
  In b (find_deprecated_methods content) ->
  has_marker (nth (start b) lines []) = true /\
  start b < j /\ j <= end_ b /\ end_ b < length lines /\
  (forall k, start b < k -> k < j ->
             blank_or_comment (nth k lines []) = true) /\
  blank_or_comment (nth j lines []) = false /\
  end_ b = find_end (skipn j lines) j 0%Z false j /\
  name b = extract_method_name (strip (nth j lines [])) /\
  n_lines b = (Z.of_nat (end_ b) - Z.of_nat (start b) + 1)%Z /\
  (2 <= n_lines b)%Z.
Proof.
  intros lines j Hin.
  destruct (find_deprecated_state_scans content) as (rs & Hs & _).
  fold lines in Hs. apply scans_resolved in Hs.
  rewrite Forall_forall in Hs.
  destruct (Hs b Hin) as (Hm & Hj & He & Hn & Hc). fold j in Hj, He, Hn.
  pose proof (skip_to_signature_ge (skipn (start b + 1) lines) (start b + 1))
    as Hge.
  fold (signature_line lines (start b)) in Hge. fold j in Hge.
  destruct (find_end_bounds lines j Hj) as [He1 He2]. rewrite <- He in He1, He2.
  assert (Hstop : blank_or_comment (nth j lines []) = false).
  { pose proof (skip_to_signature_stops (skipn (start b + 1) lines)
                  (start b + 1)) as Hstop.
    fold (signature_line lines (start b)) in Hstop. fold j in Hstop.
    rewrite length_skipn, nth_skipn in Hstop.
    replace (start b + 1 + (j - (start b + 1))) with j in Hstop by lia.
    apply Hstop. lia. }
  repeat split; try assumption; try lia.
  intros k Hk1 Hk2.
  pose proof (skip_to_signature_skipped (skipn (start b + 1) lines)
                (start b + 1) k ltac:(lia)) as Hskip.
  fold (signature_line lines (start b)) in Hskip. fold j in Hskip.
  rewrite nth_skipn in Hskip.
  replace (start b + 1 + (k - (start b + 1))) with k in Hskip by lia.
  now apply Hskip.
Qed.

Lemma returned_block_is_resolved_witness :
  has_marker (nth 2 (split_lines doc_scenario) []) = true /\
  name (mkBlock 2 5 (lit "a") 4) =
    extract_method_name
      (strip (nth (signature_line (split_lines doc_scenario) 2)
                (split_lines doc_scenario) [])).
Proof.
  assert (Hin : In (mkBlock 2 5 (lit "a") 4)
                  (find_deprecated_methods doc_scenario))
    by (vm_compute; now left).
  destruct (returned_block_is_resolved doc_scenario _ Hin)
    as (H1 & _ & _ & _ & _ & _ & _ & H8 & _).
  split; [exact H1 | exact H8].
Defined.

(** X2.  The scanner prints one report for each block it returns, in the
    same order, with the name and the line count of the block and both ends
    counted from 1. *)
Theorem printed_reports_follow_blocks content :
  printed (find_deprecated_state content) =
  map (fun b => mkReport (name b) (start b + 1) (end_ b + 1) (n_lines b))
    (find_deprecated_methods content).
Proof.
  destruct (find_deprecated_state_scans content) as (rs & Hs & ->).
  eapply scans_reports. exact Hs.
Qed.

(** ** When the script has nothing to do *)

Lemma no_marker_settled lines :
  Forall (fun l => has_marker l = false) lines -> settled lines.
Proof.
  induction 1 as [|line lines Hl _ IH]; simpl; [exact I|].
  split; [congruence | exact IH].
Qed.

(** X3.  The script stops without writing exactly when, after every line
    that holds the marker, only blank lines and comments follow up to the
    end of the document; in particular when no line holds the marker.  The
    scanner then returns no block. *)
Theorem main_idle_iff_settled content :
  (main content = None <-> settled (split_lines content)) /\
  (find_deprecated_methods content = [] <-> settled (split_lines content)) /\
  (Forall (fun l => has_marker l = false) (split_lines content) ->
   main content = None /\ run content = content).
Proof.
  assert (Hfind : find_deprecated_methods content = [] <->
                  settled (split_lines content)).
  { split.
    - intros E. pose proof (forward_pass_settled content) as H.
      now rewrite E, forward_pass_nil in H.
    - intros H. unfold find_deprecated_methods.
      now rewrite (find_deprecated_state_settled content H). }
  assert (Hmain : main content = None <->
                  find_deprecated_methods content = []).
  { unfold main. destruct (find_deprecated_methods content); split;
      (reflexivity || discriminate). }
  split; [now rewrite Hmain|]. split; [exact Hfind|].
  intros Hno. apply no_marker_settled, Hfind, Hmain in Hno.
  split; [exact Hno|]. unfold run. now rewrite Hno.
Qed.

Lemma main_idle_iff_settled_witness :
  main doc_trailing_marker = None /\ main doc_six = None.
Proof.
  destruct (main_idle_iff_settled doc_trailing_marker) as [[_ H1] _].
  destruct (main_idle_iff_settled doc_six) as (_ & _ & H2).
  split.
  - apply H1.
    change (split_lines doc_trailing_marker)
      with [lit "let x = 1"; annotation; lit "// end"].
    cbn [settled].
    split; [intros H; vm_compute in H; discriminate H|].
    split; [intros _; apply (Forall_check _ (fun l => blank_or_comment l));
            [auto | reflexivity]|].
    split; [intros _; constructor | exact I].
  - apply H2.
    apply (Forall_check _ (fun l => negb (has_marker l)));
      [intros x; now destruct (has_marker x) | reflexivity].
Defined.

(** ** Where a block ends *)

Lemma depth_open s : depth (open_brace :: s) = (1 + depth s)%Z.
Proof. reflexivity. Qed.

Lemma depth_close s : depth (close_brace :: s) = (-1 + depth s)%Z.
Proof. reflexivity. Qed.

Lemma depth_other c s :
  Ascii.eqb c open_brace = false -> Ascii.eqb c close_brace = false ->
  depth (c :: s) = depth s.
Proof. intros Ho Hc. cbn [depth]. rewrite Ho, Hc. lia. Qed.

Lemma depth_app a b : depth (a ++ b) = (depth a + depth b)%Z.
Proof.
  induction a as [|c a IH]; [reflexivity|].
  rewrite <- app_comm_cons. cbn [depth]. rewrite IH. lia.
Qed.

(** The loop over the characters of a line either leaves through its
    [break], at a closing brace that brings the count to zero after an
    opening brace, or adds the depth of the line to the count. *)
Lemma count_braces_spec line : forall c f,
  match count_braces line c f with
  | (c', f', false) =>
      c' = (c + depth line)%Z /\
      (f' = true <-> f = true \/ In open_brace line)
  | (_, _, true) =>
      exists pre post,
        line = pre ++ close_brace :: post /\
        (c + depth (pre ++ [close_brace]) = 0)%Z /\
        (f = true \/ In open_brace pre)
  end.
Proof.
  induction line as [|ch line IH]; intros c f.
  - cbn [count_braces depth]. split; [lia|].
    split; [now left | intros [H|[]]; exact H].
  - cbn [count_braces].
    destruct (Ascii.eqb ch open_brace) eqn:Ho.
    + apply Ascii.eqb_eq in Ho. subst ch.
      specialize (IH (c + 1)%Z true).
      destruct (count_braces line (c + 1)%Z true) as [[c' f'] [|]].
      * destruct IH as (pre & post & -> & Hd & _).
        exists (open_brace :: pre), post.
        split; [reflexivity|]. split.
        -- rewrite <- app_comm_cons, depth_open. lia.
        -- right. now left.
      * destruct IH as [-> Hf]. split; [rewrite depth_open; lia|].
        split; [intros _; right; now left | intros _; apply Hf; now left].
    + assert (Hin : In open_brace (ch :: line) <-> In open_brace line).
      { apply Ascii.eqb_neq in Ho. simpl. split; [intros [E|E]|]; auto.
        congruence. }
      destruct (Ascii.eqb ch close_brace) eqn:Hc.
      * apply Ascii.eqb_eq in Hc. subst ch.
        destruct (f && (c - 1 =? 0)%Z) eqn:Hhit.
        -- apply andb_true_iff in Hhit. destruct Hhit as [Hf Hz].
           apply Z.eqb_eq in Hz.
           exists [], line.
           split; [reflexivity|]. split; [|now left].
           change ([] ++ [close_brace]) with [close_brace].
           rewrite depth_close. cbn [depth]. lia.
        -- specialize (IH (c - 1)%Z f).
           destruct (count_braces line (c - 1)%Z f) as [[c' f'] [|]].
           ++ destruct IH as (pre & post & -> & Hd & Hf).
              exists (close_brace :: pre), post.
              split; [reflexivity|]. split.
              ** rewrite <- app_comm_cons, depth_close. lia.
              ** destruct Hf as [Hf|Hf]; [now left | right; now right].
           ++ destruct IH as [-> Hf]. split; [rewrite depth_close; lia|].
              now rewrite Hin.
      * specialize (IH c f).
        destruct (count_braces line c f) as [[c' f'] [|]].
        -- destruct IH as (pre & post & -> & Hd & Hf).
           exists (ch :: pre), post.
           split; [reflexivity|]. split.
           ++ rewrite <- app_comm_cons, depth_other by assumption. exact Hd.
           ++ destruct Hf as [Hf|Hf]; [now left | right; now right].
        -- destruct IH as [-> Hf].
           split; [now rewrite depth_other by assumption|].
           now rewrite Hin.
Qed.

(** An end line other than the one it was initialised to is a line on which
    the count came back to zero at a closing brace. *)
Lemma find_end_closes rest : forall k c f d,
  let e := find_end rest k c f d in
  e <> d ->
  k <= e /\
  exists pre post,
    nth (e - k) rest [] = pre ++ close_brace :: post /\
    (c + depth (concat (firstn (e - k) rest) ++ pre ++ [close_brace]) = 0)%Z /\
    (f = true \/ In open_brace (concat (firstn (e - k) rest) ++ pre)).
Proof.
  induction rest as [|line rest IH]; intros k c f d e He.
  - now contradiction He.
  - unfold e in *. simpl find_end in *.
    pose proof (count_braces_spec line c f) as Hline.
    destruct (count_braces line c f) as [[c' f'] [|]].
    + destruct Hline as (pre & post & -> & Hd & Hf).
      split; [lia|]. rewrite Nat.sub_diag. cbn [firstn concat nth app].
      exists pre, post. split; [reflexivity|]. split; assumption.
    + destruct Hline as [-> Hf'].
      destruct (f' && (c + depth line =? 0)%Z); [now contradiction He|].
      destruct (IH (S k) (c + depth line)%Z f' d He)
        as (Hle & pre & post & Hnth & Hd & Hf).
      split; [lia|].
      replace (find_end rest (S k) (c + depth line)%Z f' d - k)
        with (S (find_end rest (S k) (c + depth line)%Z f' d - S k)) by lia.
      cbn [firstn concat nth]. exists pre, post. split; [exact Hnth|]. split.
      * rewrite <- app_assoc, depth_app. lia.
      * rewrite <- app_assoc.
        destruct Hf as [Hf|Hf].
        -- apply Hf' in Hf. destruct Hf as [Hf|Hf]; [now left|].
           right. apply in_or_app. now left.
        -- right. apply in_or_app. now right.
Qed.

(** X4.  When a returned block ends after its declaration line, its end line
    holds a closing brace at which the text from the declaration line on
    (line ends aside) is balanced: as many opening as closing braces, and at
    least one opening brace before that closing one. *)
Theorem end_line_closes_balanced_text content b :
  let lines := split_lines content in
  let j := signature_line lines (start b) in
  In b (find_deprecated_methods content) ->
  j < end_ b ->
  exists pre post,
    nth (end_ b) lines [] = pre ++ close_brace :: post /\
    depth (concat (firstn (end_ b - j) (skipn j lines))
           ++ pre ++ [close_brace]) = 0%Z /\
    In open_brace (concat (firstn (end_ b - j) (skipn j lines)) ++ pre).
Proof.
  intros lines j Hin Hlt.
  destruct (find_deprecated_state_scans content) as (rs & Hs & _).
  fold lines in Hs. apply scans_resolved in Hs.
  rewrite Forall_forall in Hs.
  destruct (Hs b Hin) as (_ & _ & He & _). fold j in He.
  destruct (find_end_closes (skipn j lines) j 0%Z false j)
    as (_ & pre & post & Hnth & Hd & Hf); [rewrite <- He; lia|].
  rewrite <- He in Hnth, Hd, Hf.
  rewrite nth_skipn in Hnth.
  replace (j + (end_ b - j)) with (end_ b) in Hnth by lia.
  exists pre, post. split; [exact Hnth|]. split; [lia|].
  destruct Hf as [Hf|Hf]; [discriminate | exact Hf].
Qed.

Lemma end_line_closes_balanced_text_witness :
  exists pre post,
    nth 5 (split_lines doc_scenario) [] = pre ++ close_brace :: post /\
    depth (concat (firstn (5 - 3) (skipn 3 (split_lines doc_scenario)))
           ++ pre ++ [close_brace]) = 0%Z.
Proof.
  assert (Hin : In (mkBlock 2 5 (lit "a") 4)
                  (find_deprecated_methods doc_scenario))
    by (vm_compute; now left).
  assert (Hlt : signature_line (split_lines doc_scenario) 2 < 5)
    by (vm_compute; lia).
  destruct (end_line_closes_balanced_text doc_scenario _ Hin Hlt)
    as (pre & post & H1 & H2 & _).
  exists pre, post. split; [exact H1 | exact H2].
Defined.

(** ** A marker followed by a marker *)

(** X5.  The line right after a marker line is taken as its declaration
    whenever it is neither blank nor a comment, also when it holds the marker
    itself.  For the first marker of a document this gives one block, which
    starts on the marker line and ends where the brace count started on the
    next line stops; the scanner goes on after that block, so no block starts
    on the second line, marker or not. *)
Theorem next_line_is_declaration content i :
  let lines := split_lines content in
  let end_line := find_end (skipn (i + 1) lines) (i + 1) 0%Z false (i + 1) in
  i + 1 < length lines ->
  (forall k, k < i -> has_marker (nth k lines []) = false) ->
  has_marker (nth i lines []) = true ->
  blank_or_comment (nth (i + 1) lines []) = false ->
  i + 1 <= end_line /\
  (exists rest,
      find_deprecated_methods content =
        mkBlock i end_line
          (extract_method_name (strip (nth (i + 1) lines [])))
          (Z.of_nat end_line - Z.of_nat i + 1) :: rest /\
      Forall (fun b => end_line < start b) rest) /\
  (forall b, In b (find_deprecated_methods content) -> start b <> i + 1).
Proof.
  intros lines e Hlen Hfirst Hm Hdecl.
  assert (Hj : skip_to_signature (skipn (i + 1) lines) (i + 1) = i + 1).
  { rewrite (nth_skipn_cons lines (i + 1) [] Hlen). simpl. now rewrite Hdecl. }
  destruct (find_end_bounds lines (i + 1) Hlen) as [He1 He2].
  fold e in He1, He2.
  assert (Hfind : exists rest,
             find_deprecated_methods content =
               mkBlock i e
                 (extract_method_name (strip (nth (i + 1) lines [])))
                 (Z.of_nat e - Z.of_nat i + 1) :: rest /\
             Forall (fun b => e < start b) rest).
  { unfold find_deprecated_methods, find_deprecated_state. fold lines.
    rewrite (scan_loop_fuel lines (length lines)
               (i + S (length lines - i - 1)) 0 scan_start) by lia.
    rewrite (scan_loop_plain lines i _ 0 scan_start);
      [|lia | intros k Hk; apply Hfirst; lia].
    simpl (0 + i).
    rewrite (scan_loop_block lines _ i scan_start (i + 1) e);
      [|lia | assumption | now rewrite Hj | assumption | reflexivity].
    destruct (scan_loop_scans lines (length lines - i - 1) (e + 1)
                (found scan_start i e
                   (extract_method_name (strip (nth (i + 1) lines [])))))
      as (bs & rs & Hs & ->); [lia|].
    simpl. exists bs. split; [reflexivity|].
    apply scans_range in Hs. eapply Forall_impl; [|exact Hs].
    simpl. intros b. lia. }
  split; [exact He1|]. split; [exact Hfind|].
  destruct Hfind as (rest & -> & Hrest).
  intros b [<-|Hb]; simpl; [lia|].
  rewrite Forall_forall in Hrest. specialize (Hrest b Hb). lia.
Qed.

Lemma next_line_is_declaration_witness :
  has_marker (nth 2 (split_lines doc_adjacent_markers) []) = true /\
  (forall b, In b (find_deprecated_methods doc_adjacent_markers) ->
             start b <> 1 + 1).
Proof.
  split; [reflexivity|].
  apply (next_line_is_declaration doc_adjacent_markers 1).
  - vm_compute. lia.
  - intros k Hk. destruct k as [|k]; [reflexivity | lia].
  - reflexivity.
  - reflexivity.
Defined.

(** ** More on the normalizer *)

Lemma startswith_three_newlines s :
  startswith three_newlines s = (3 <=? leading_newlines s).
Proof.
  unfold three_newlines.
  assert (Hsym : forall c, Ascii.eqb nl c = is_nl c)
    by (intros c; unfold is_nl; apply Ascii.eqb_sym).
  destruct s as [|c1 s]; [reflexivity|].
  cbn [startswith leading_newlines]. rewrite Hsym.
  destruct (is_nl c1); [|reflexivity].
  destruct s as [|c2 s]; [reflexivity|].
  cbn [startswith leading_newlines andb]. rewrite Hsym.
  destruct (is_nl c2); [|reflexivity].
  destruct s as [|c3 s]; [reflexivity|].
  cbn [startswith leading_newlines andb]. rewrite Hsym.
  destruct (is_nl c3); reflexivity.
Qed.

Lemma calm_contains s : calm s <-> contains three_newlines s = false.
Proof.
  induction s as [|c s IH].
  - cbn. split; [reflexivity | intros _; split; [lia | exact I]].
  - cbn [calm contains]. rewrite orb_false_iff, startswith_three_newlines.
    rewrite Nat.leb_gt, IH. tauto.
Qed.

(** X6.  The text the normalizer returns never holds three newlines in a
    row, and normalizing it again changes nothing. *)
Theorem normalizer_is_idempotent content :
  contains three_newlines (clean_empty_lines content) = false /\
  clean_empty_lines (clean_empty_lines content) = clean_empty_lines content.
Proof.
  pose proof (proj1 (sub_newlines_calm content)) as Hcalm.
  split.
  - now apply calm_contains.
  - unfold clean_empty_lines. now apply sub_newlines_calm_id.
Qed.

(** X7.  The normalizer returns a text as it is exactly when that text holds
    no three newlines in a row. *)
Theorem normalizer_fixed_points content :
  clean_empty_lines content = content <->
  contains three_newlines content = false.
Proof.
  rewrite <- calm_contains. split.
  - intros E. rewrite <- E. apply sub_newlines_calm.
  - apply sub_newlines_calm_id.
Qed.

Lemma normalizer_fixed_points_witness :
  clean_empty_lines doc_six = doc_six.
Proof. apply (proj2 (normalizer_fixed_points doc_six)). reflexivity. Defined.

Lemma sub_newlines_keeps_characters s :
  filter (fun c => negb (is_nl c)) (sub_newlines s) =
    filter (fun c => negb (is_nl c)) s /\
  filter (fun c => negb (is_nl c)) (sub_skip s) =
    filter (fun c => negb (is_nl c)) s.
Proof.
  induction s as [|c s [IH1 IH2]]; [split; reflexivity|]. split.
  - rewrite sub_newlines_cons.
    destruct (3 <=? leading_newlines (c :: s)) eqn:H3.
    + apply Nat.leb_le in H3. cbn [leading_newlines] in H3.
      destruct (is_nl c) eqn:Hc; [|lia].
      cbn [filter]. rewrite Hc. cbn. exact IH2.
    + cbn [filter]. now rewrite IH1.
  - cbn [sub_skip]. destruct (is_nl c) eqn:Hc.
    + cbn [filter]. rewrite Hc. cbn. exact IH2.
    + cbn [filter]. rewrite Hc. cbn. now rewrite IH1.
Qed.

Lemma sub_newlines_length s :
  length (sub_newlines s) <= length s /\
  length (sub_skip s) + leading_newlines s <= length s.
Proof.
  induction s as [|c s [IH1 IH2]]; [split; cbn; lia|]. split.
  - rewrite sub_newlines_cons.
    destruct (3 <=? leading_newlines (c :: s)) eqn:H3.
    + apply Nat.leb_le in H3. cbn [leading_newlines] in H3.
      destruct (is_nl c); [|lia]. cbn [length]. lia.
    + cbn [length]. lia.
  - cbn [sub_skip leading_newlines].
    destruct (is_nl c); cbn [length]; lia.
Qed.

Lemma thinned_not_empty l' l :
  thinned l' l -> filter not_empty l' = filter not_empty l.
Proof.
  induction 1 as [|line l' l _ IH|l' l _ IH]; cbn [filter]; [reflexivity| |].
  - now rewrite IH.
  - exact IH.
Qed.

(** X8.  The normalizer takes away newlines and nothing else: the other
    characters are all kept, in order; the first line and the lines that are
    not empty are kept, in order; neither the text nor its number of lines
    grows. *)
Theorem normalizer_only_drops_newlines content :
  filter (fun c => negb (is_nl c)) (clean_empty_lines content) =
    filter (fun c => negb (is_nl c)) content /\
  hd [] (split_lines (clean_empty_lines content)) =
    hd [] (split_lines content) /\
  filter not_empty (split_lines (clean_empty_lines content)) =
    filter not_empty (split_lines content) /\
  length (clean_empty_lines content) <= length content /\
  length (split_lines (clean_empty_lines content))
    <= length (split_lines content).
Proof.
  pose proof (clean_empty_lines_thinned content) as Hthin.
  split; [apply sub_newlines_keeps_characters|].
  split.
  { destruct (split_lines (clean_empty_lines content)),
             (split_lines content); cbn in Hthin; try contradiction.
    now destruct Hthin. }
  apply same_head_thinned_thinned in Hthin.
  split; [now apply thinned_not_empty|].
  split; [apply sub_newlines_length | now apply thinned_length].
Qed.

(** ** More on the executor *)

Lemma total_removed_perm bs bs' :
  Permutation bs bs' -> total_removed bs = total_removed bs'.
Proof. unfold total_removed. induction 1; cbn [fold_right]; lia. Qed.

(** X9.  For pairwise disjoint blocks the order in which the caller lists
    them does not matter: the executor returns the same text, and the same
    total, for every permutation of the list. *)
Theorem executor_ignores_block_order content blocks blocks' :
  Permutation blocks blocks' ->
  pairwise_disjoint blocks ->
  remove_deprecated_blocks content blocks =
    remove_deprecated_blocks content blocks' /\
  remove_loop (split_lines content) blocks =
    remove_loop (split_lines content) blocks'.
Proof.
  intros Hperm Hdisj.
  pose proof (pairwise_disjoint_perm blocks blocks' Hperm Hdisj) as Hdisj'.
  assert (E : remove_loop (split_lines content) blocks =
              remove_loop (split_lines content) blocks').
  { rewrite !remove_loop_forward by assumption. f_equal.
    - apply keep_uncovered_ext. intros i _. now apply covered_perm.
    - now apply total_removed_perm. }
  split; [|exact E]. unfold remove_deprecated_blocks. now rewrite E.
Qed.

Lemma executor_ignores_block_order_witness :
  remove_deprecated_blocks doc_six blocks_apart =
    remove_deprecated_blocks doc_six blocks_apart_swapped.
Proof.
  apply (executor_ignores_block_order doc_six blocks_apart
           blocks_apart_swapped).
  - apply perm_swap.
  - exact blocks_apart_disjoint.
Defined.





Lemma del_slice_prefix {A : Type} (l : list A) a b m :
  m <= a -> firstn m (del_slice l a b) = firstn m l.
Proof.
  intros H. unfold del_slice.
  rewrite firstn_app, firstn_firstn, Nat.min_l by lia.
  destruct (le_lt_dec a (length l)) as [Hl|Hl].
  - rewrite length_firstn, Nat.min_l by lia.
    replace (m - a) with 0 by lia. cbn [firstn]. apply app_nil_r.
  - rewrite (skipn_all2 l) by lia. rewrite firstn_nil. apply app_nil_r.
Qed.

Lemma remove_fold_prefix m bs : forall (l : list (list ascii)) t,
  Forall (fun b => m <= start b) bs ->
  firstn m (fst (fold_left remove_block bs (l, t))) = firstn m l.
Proof.
  induction bs as [|b bs IH]; intros l t Hbs; [reflexivity|].
  inversion Hbs; subst. cbn [fold_left remove_block].
  rewrite IH by assumption. now apply del_slice_prefix.
Qed.

Lemma remove_loop_prefix m lines blocks :
  Forall (fun b => m <= start b) blocks ->
  firstn m (fst (remove_loop lines blocks)) = firstn m lines.
Proof.
  intros Hlow. unfold remove_loop. apply remove_fold_prefix.
  eapply Permutation_Forall; [|exact Hlow].
  symmetry. apply sorted_reverse_perm.
Qed.

(** X11.  Whatever the blocks are, the executor leaves the lines before the
    lowest start untouched. *)
Theorem executor_keeps_leading_lines content blocks m :
  Forall (fun b => m <= start b) blocks ->
  firstn m (fst (remove_loop (split_lines content) blocks)) =
    firstn m (split_lines content).
Proof. apply remove_loop_prefix. Qed.

Lemma executor_keeps_leading_lines_witness :
  firstn 1 (fst (remove_loop (split_lines doc_six) blocks_overlapping)) =
    firstn 1 (split_lines doc_six).
Proof.
  apply (executor_keeps_leading_lines doc_six blocks_overlapping 1).
  unfold blocks_overlapping. repeat (constructor; [cbn; lia|]). constructor.
Defined.

(** ** More on the whole run *)

Lemma pipeline_lines content :
  let kept := forward_pass (split_lines content)
                (find_deprecated_methods content) in
  pipeline content = clean_empty_lines (join_lines kept) /\
  Forall no_newline kept.
Proof.
  intros kept. split.
  - unfold pipeline, remove_deprecated_blocks.
    now rewrite remove_loop_forward by apply find_deprecated_methods_disjoint.
  - apply keep_uncovered_Forall, split_lines_no_newline.
Qed.

(** X12.  The lines of the written text that are not empty are, in order,
    the lines of the original that are not empty and that no returned block
    covers: outside the blocks the run takes away empty lines only, and it
    adds and alters nothing. *)
Theorem run_keeps_lines_outside_blocks content :
  filter not_empty (split_lines (pipeline content)) =
    filter not_empty
      (forward_pass (split_lines content) (find_deprecated_methods content)) /\
  (forall cleaned,
      main content = Some cleaned ->
      filter not_empty (split_lines cleaned) =
        filter not_empty
          (forward_pass (split_lines content)
             (find_deprecated_methods content))).
Proof.
  assert (H : filter not_empty (split_lines (pipeline content)) =
              filter not_empty
                (forward_pass (split_lines content)
                   (find_deprecated_methods content))).
  { destruct (pipeline_lines content) as [-> Hnl].
    set (kept := forward_pass _ _) in *.
    pose proof (clean_empty_lines_thinned (join_lines kept)) as Hthin.
    apply same_head_thinned_thinned, thinned_not_empty in Hthin.
    rewrite Hthin. destruct kept as [|line more] eqn:Ek; [reflexivity|].
    rewrite split_join; [reflexivity | discriminate | exact Hnl]. }
  split; [exact H|].
  intros cleaned Hmain. now rewrite (main_pipeline content cleaned Hmain).
Qed.

Lemma run_keeps_lines_outside_blocks_witness :
  filter not_empty (split_lines (pipeline doc_scenario)) =
    filter not_empty
      (forward_pass (split_lines doc_scenario)
         (find_deprecated_methods doc_scenario)).
Proof.
  assert (Hmain : main doc_scenario = Some (pipeline doc_scenario))
    by (vm_compute; reflexivity).
  exact (proj2 (run_keeps_lines_outside_blocks doc_scenario)
           (pipeline doc_scenario) Hmain).
Defined.

Lemma total_removed_at_least_two bs :
  Forall (fun b => start b < end_ b) bs -> bs <> [] ->
  (2 <= total_removed bs)%Z.
Proof.
  unfold total_removed.
  induction 1 as [|b bs Hb Hbs IH]; intros Hne; [congruence|].
  cbn [fold_right]. destruct bs as [|b' bs].
  - cbn [fold_right]. lia.
  - specialize (IH ltac:(discriminate)). lia.
Qed.

(** X13.  The numbers of the summary, when the script writes.  The total the
    executor prints is at least 2 and at most the number of lines of the
    original, and the lines left before normalization are the original ones
    minus that total.  The summary always reports at least one removed line.
    It reports at least the executor's total, except when every line lies in
    a block: then the written text is empty, is counted as one line, and the
    summary reports one line fewer than the executor. *)
Theorem summary_line_counts content cleaned :
  let lines := split_lines content in
  let blocks := find_deprecated_methods content in
  let kept := fst (remove_loop lines blocks) in
  let total_lines_removed := snd (remove_loop lines blocks) in
  let original_lines := Z.of_nat (length lines) in
  let cleaned_lines := Z.of_nat (length (split_lines cleaned)) in
  main content = Some cleaned ->
  (2 <= total_lines_removed <= original_lines)%Z /\
  (Z.of_nat (length kept) = original_lines - total_lines_removed)%Z /\
  (1 <= original_lines - cleaned_lines)%Z /\
  (kept <> [] -> total_lines_removed <= original_lines - cleaned_lines)%Z /\
  (kept = [] ->
   cleaned = [] /\
   (original_lines - cleaned_lines = total_lines_removed - 1)%Z).
Proof.
  intros lines blocks kept total original_lines cleaned_lines Hmain.
  pose proof (find_deprecated_methods_disjoint content) as Hdisj.
  pose proof (find_deprecated_methods_range content) as Hrange.
  fold blocks in Hdisj, Hrange. fold lines in Hrange.
  assert (Hres : Forall (resolved_in (length lines)) blocks).
  { eapply Forall_impl; [|exact Hrange]. unfold resolved_in.
    cbn beta. intros b. lia. }
  assert (Hne : blocks <> []).
  { unfold main in Hmain. fold blocks in Hmain.
    destruct blocks; [discriminate | discriminate]. }
  assert (Htotal : total = total_removed blocks)
    by apply remove_loop_total.
  assert (Hkept : (Z.of_nat (length kept) = original_lines - total)%Z).
  { unfold kept, original_lines. rewrite Htotal.
    now apply remove_loop_length. }
  assert (H2 : (2 <= total)%Z).
  { rewrite Htotal. apply total_removed_at_least_two; [|exact Hne].
    eapply Forall_impl; [|exact Hrange]. cbn beta. intros b. lia. }
  pose proof (main_shrinks content cleaned Hmain) as Hshrink.
  fold lines in Hshrink.
  assert (Hclean : cleaned = clean_empty_lines (join_lines kept)).
  { rewrite (main_pipeline content cleaned Hmain).
    unfold pipeline, remove_deprecated_blocks. reflexivity. }
  assert (Hnl : Forall no_newline kept).
  { unfold kept. rewrite remove_loop_forward by assumption. cbn [fst].
    apply keep_uncovered_Forall, split_lines_no_newline. }
  split; [lia|]. split; [exact Hkept|]. split; [lia|]. split.
  - intros Hk.
    pose proof (clean_empty_lines_thinned (join_lines kept)) as Hthin.
    apply same_head_thinned_thinned, thinned_length in Hthin.
    rewrite split_join in Hthin by assumption.
    unfold cleaned_lines. rewrite Hclean. lia.
  - intros Hk. rewrite Hk in Hclean, Hkept. cbn in Hclean.
    split; [exact Hclean|].
    unfold cleaned_lines. rewrite Hclean. cbn in *. lia.
Qed.

Lemma summary_line_counts_witness :
  main doc_only_block = Some [] /\
  (Z.of_nat (length (split_lines doc_only_block))
   - Z.of_nat (length (split_lines [])) =
   snd (remove_loop (split_lines doc_only_block)
          (find_deprecated_methods doc_only_block)) - 1)%Z.
Proof.
  assert (Hmain : main doc_only_block = Some []) by reflexivity.
  split; [exact Hmain|].
  destruct (summary_line_counts doc_only_block [] Hmain)
    as (_ & _ & _ & _ & H).
  apply H. reflexivity.
Defined.

(** ** The name of a block *)

Lemma span_spec p s :
  s = fst (span p s) ++ snd (span p s) /\
  Forall (fun c => p c = true) (fst (span p s)) /\
  match snd (span p s) with
  | [] => True
  | c :: _ => p c = false
  end.
Proof.
  induction s as [|c s (IH1 & IH2 & IH3)]; cbn [span].
  - repeat split. constructor.
  - destruct (p c) eqn:Hc.
    + destruct (span p s) as [a b]. cbn [fst snd] in *.
      split; [now rewrite IH1 at 1|]. split; [now constructor | exact IH3].
    + cbn [fst snd]. repeat split; [constructor | exact Hc].
Qed.

Lemma span_app p a b :
  Forall (fun c => p c = true) a ->
  match b with [] => True | c :: _ => p c = false end ->
  span p (a ++ b) = (a, b).
Proof.
  intros Ha Hb. induction Ha as [|c a Hc _ IH]; cbn [app span].
  - destruct b as [|c b]; cbn [span]; [reflexivity | now rewrite Hb].
  - now rewrite Hc, IH.
Qed.

Lemma startswith_skipn p : forall s,
  startswith p s = true -> s = p ++ skipn (length p) s.
Proof.
  induction p as [|a p IH]; intros s H; [reflexivity|].
  destruct s as [|b s]; [discriminate|]. cbn [startswith] in H.
  apply andb_true_iff in H. destruct H as [Hab Hp].
  apply Ascii.eqb_eq in Hab. subst b. cbn [length skipn app].
  now rewrite <- IH.
Qed.

Lemma startswith_app p s : startswith p (p ++ s) = true.
Proof.
  induction p as [|a p IH]; [reflexivity|].
  cbn [app startswith]. now rewrite Ascii.eqb_refl, IH.
Qed.

Lemma contains_app p a b : contains p (a ++ p ++ b) = true.
Proof.
  induction a as [|c a IH].
  - cbn [app]. destruct (p ++ b) eqn:E; cbn [contains];
      rewrite <- E, startswith_app; reflexivity.
  - cbn [app contains]. rewrite IH. apply orb_true_r.
Qed.

(** White space is no word character. *)
Lemma isword_not_isspace c : isword c = true -> isspace c = false.
Proof.
  destruct c as [[|] [|] [|] [|] [|] [|] [|] [|]];
    vm_compute; intros H; (reflexivity || discriminate H).
Qed.

Lemma match_func_here_sound s w :
  match_func_here s = Some w -> func_match s [] w.
Proof.
  unfold match_func_here.
  destruct (startswith (lit "func") s) eqn:Hs; [|discriminate].
  apply startswith_skipn in Hs. change (length (lit "func")) with 4 in Hs.
  destruct (span_spec isspace (skipn 4 s)) as (E1 & F1 & _).
  destruct (span isspace (skipn 4 s)) as [ws after]. cbn [fst snd] in *.
  destruct ws as [|c ws]; [discriminate|].
  destruct (span_spec isword after) as (E2 & F2 & N2).
  destruct (fst (span isword after)) as [|c' w'] eqn:Ew; [discriminate|].
  intros [= <-].
  exists (c :: ws), (snd (span isword after)).
  split; [|repeat split; (assumption || discriminate)].
  rewrite <- E2, <- E1. exact Hs.
Qed.

Lemma re_search_func_sound s w :
  re_search_func s = Some w -> exists pre, func_match s pre w.
Proof.
  induction s as [|c s IH]; cbn [re_search_func].
  - destruct (match_func_here []) eqn:E; [|discriminate].
    intros [= <-]. exists []. now apply match_func_here_sound.
  - destruct (match_func_here (c :: s)) eqn:E.
    + intros [= <-]. exists []. now apply match_func_here_sound.
    + intros H. destruct (IH H) as (pre & ws & post & -> & Hrest).
      exists (c :: pre), ws, post. split; [reflexivity | exact Hrest].
Qed.

(** X14.  The name given to a block is [Unknown], or it is a word that
    stands in the declaration line after [func] and white space: it is made
    of word characters only, is not empty, and is not followed by a word
    character; and the line then holds [func] followed by a space. *)
Theorem extracted_name_sound method_signature :
  extract_method_name method_signature = lit "Unknown" \/
  (contains (lit "func ") method_signature = true /\
   exists pre,
     func_match method_signature pre
       (extract_method_name method_signature)).
Proof.
  unfold extract_method_name.
  destruct (contains (lit "func ") method_signature); [|now left].
  destruct (re_search_func method_signature) as [w|] eqn:E; [|now left].
  right. split; [reflexivity|]. now apply re_search_func_sound.
Qed.

Lemma re_search_func_here s w :
  match_func_here s = Some w -> re_search_func s = Some w.
Proof. intros H. destruct s; cbn [re_search_func]; now rewrite H. Qed.

Lemma re_search_func_skip pre s :
  ~ In "f"%char pre -> re_search_func (pre ++ s) = re_search_func s.
Proof.
  induction pre as [|c pre IH]; intros Hf; [reflexivity|].
  cbn [app re_search_func].
  assert (Hnone : match_func_here (c :: pre ++ s) = None).
  { unfold match_func_here.
    change (lit "func") with ("f"%char :: lit "unc").
    cbn [startswith].
    replace (Ascii.eqb "f" c) with false; [reflexivity|].
    symmetry. apply Ascii.eqb_neq. intros E. apply Hf. left. now symmetry. }
  rewrite Hnone. apply IH. intros H. apply Hf. now right.
Qed.

(** X15.  For a declaration line made of a prefix without the letter [f],
    [func], a space, any further white space, a word and a rest that does not
    go on with a word character, the name of the block is that word. *)
Theorem extracted_name_after_func pre ws w post :
  ~ In "f"%char pre ->
  Forall (fun c => isspace c = true) ws ->
  w <> [] ->
  Forall (fun c => isword c = true) w ->
  match post with [] => True | c :: _ => isword c = false end ->
  extract_method_name (pre ++ lit "func " ++ ws ++ w ++ post) = w.
Proof.
  intros Hpre Hws Hne Hw Hpost.
  unfold extract_method_name.
  rewrite contains_app, re_search_func_skip by assumption.
  rewrite (re_search_func_here _ w); [reflexivity|].
  unfold match_func_here.
  change (lit "func " ++ ws ++ w ++ post)
    with (lit "func" ++ " "%char :: ws ++ w ++ post).
  rewrite startswith_app.
  change (skipn 4 (lit "func" ++ " "%char :: ws ++ w ++ post))
    with ((" "%char :: ws) ++ w ++ post).
  destruct w as [|c w]; [congruence|].
  rewrite (span_app isspace (" "%char :: ws) ((c :: w) ++ post)).
  - rewrite (span_app isword (c :: w) post) by assumption. reflexivity.
  - now constructor.
  - cbn [app]. apply isword_not_isspace. now inversion Hw.
Qed.

Lemma extracted_name_after_func_witness :
  extract_method_name
    (lit "private " ++ lit "func " ++ [] ++ lit "fooBar" ++ lit "(x: Int) {")
  = lit "fooBar".
Proof.
  apply (extracted_name_after_func (lit "private ") [] (lit "fooBar")
           (lit "(x: Int) {")).
  - apply not_In_check. reflexivity.
  - constructor.
  - discriminate.
  - apply (Forall_check _ isword); [auto | reflexivity].
  - reflexivity.
Defined.

(** ** Before the first marker *)

(** X16.  The lines that come before the first line holding the marker are
    no part of any returned block, and the removal leaves them as they are,
    at the head of the document. *)
Theorem lines_before_first_marker_stay content i :
  let lines := split_lines content in
  let blocks := find_deprecated_methods content in
  (forall k, k < i -> has_marker (nth k lines []) = false) ->
  Forall (fun b => i <= start b) blocks /\
  firstn i (fst (remove_loop lines blocks)) = firstn i lines.
Proof.
  intros lines blocks Hfirst.
  assert (Hlow : Forall (fun b => i <= start b) blocks).
  { destruct (find_deprecated_state_scans content) as (rs & Hs & _).
    apply scans_starts in Hs. fold lines blocks in Hs.
    eapply Forall_impl; [|exact Hs]. cbn beta. intros b [Hm _].
    destruct (le_lt_dec i (start b)) as [Hle|Hlt]; [exact Hle|].
    rewrite (Hfirst _ Hlt) in Hm. discriminate. }
  split; [exact Hlow | now apply remove_loop_prefix].
Qed.

Lemma lines_before_first_marker_stay_witness :
  firstn 2 (fst (remove_loop (split_lines doc_scenario)
                   (find_deprecated_methods doc_scenario))) =
    firstn 2 (split_lines doc_scenario).
Proof.
  apply (lines_before_first_marker_stay doc_scenario 2).
  intros k Hk. destruct k as [|[|k]]; [reflexivity | reflexivity | lia].
Defined.

(** ** Before the end line *)

(** As long as the loop over the lines goes on, no line has ended with the
    count at zero after an opening brace. *)
Lemma find_end_not_before rest : forall k c f d,
  let e := find_end rest k c f d in
  e <> d ->
  forall k', k <= k' -> k' < e ->
    ~ ((f = true \/ In open_brace (concat (firstn (k' - k + 1) rest))) /\
       (c + depth (concat (firstn (k' - k + 1) rest)) = 0)%Z).
Proof.
  induction rest as [|line rest IH]; intros k c f d e He k' Hk1 Hk2.
  - now contradiction He.
  - unfold e in *. cbn [find_end] in *.
    pose proof (count_braces_spec line c f) as Hline.
    destruct (count_braces line c f) as [[c' f'] [|]]; [lia|].
    destruct Hline as [-> Hf'].
    destruct (f' && (c + depth line =? 0)%Z) eqn:Hstop;
      [now contradiction He|].
    destruct (Nat.eq_dec k' k) as [->|Hne].
    + replace (k - k + 1) with 1 by lia. cbn [firstn concat].
      rewrite app_nil_r. intros [Hopen Hzero].
      apply Hf' in Hopen. apply Z.eqb_eq in Hzero.
      rewrite Hopen, Hzero in Hstop. discriminate.
    + replace (k' - k + 1) with (S (k' - S k + 1)) by lia.
      cbn [firstn concat]. rewrite depth_app.
      intros [Hopen Hzero].
      apply (IH (S k) (c + depth line)%Z f' d He k' ltac:(lia) Hk2).
      split; [|lia].
      destruct Hopen as [Hopen|Hopen].
      * left. apply Hf'. now left.
      * apply in_app_or in Hopen. destruct Hopen as [Hopen|Hopen].
        -- left. apply Hf'. now right.
        -- now right.
Qed.

(** X17.  A returned block does not run past a balanced body: for no line
    from the declaration line up to the line before the end line is the text
    from the declaration line to the end of that line balanced (as many
    opening as closing braces) with an opening brace in it. *)
Theorem no_balanced_line_before_end content b k :
  let lines := split_lines content in
  let j := signature_line lines (start b) in
  let text := concat (firstn (k - j + 1) (skipn j lines)) in
  In b (find_deprecated_methods content) ->
  j <= k -> k < end_ b ->
  ~ (In open_brace text /\ depth text = 0%Z).
Proof.
  intros lines j text Hin Hk1 Hk2.
  destruct (find_deprecated_state_scans content) as (rs & Hs & _).
  fold lines in Hs. apply scans_resolved in Hs.
  rewrite Forall_forall in Hs.
  destruct (Hs b Hin) as (_ & _ & He & _). fold j in He.
  pose proof (find_end_not_before (skipn j lines) j 0%Z false j) as H.
  cbv zeta in H. rewrite <- He in H.
  specialize (H ltac:(lia) k Hk1 Hk2). fold text in H.
  intros [Hopen Hzero]. apply H. split; [now right | lia].
Qed.

Lemma no_balanced_line_before_end_witness :
  ~ (In open_brace
       (concat (firstn (4 - 3 + 1) (skipn 3 (split_lines doc_scenario)))) /\
     depth (concat (firstn (4 - 3 + 1) (skipn 3 (split_lines doc_scenario))))
       = 0%Z).
Proof.
  assert (Hin : In (mkBlock 2 5 (lit "a") 4)
                  (find_deprecated_methods doc_scenario))
    by (vm_compute; now left).
  apply (no_balanced_line_before_end doc_scenario _ 4 Hin);
    vm_compute; lia.
Defined.
